(** * pg-enhanced: the tagged-template SQL binder and the database-error classifier

    A shallow embedding of
      - [src/sql/clients/escape-clients.js]   (the escape wrappers),
      - [src/sql/utils/parse-tagged-template.js]   ([parseTaggedTemplate]),
      - [src/models/utils/generate-db-error-message.js]
        ([getQueryMethod], [generateDbErrorMessage]),
      - [src/models/errors.js]   (the [DBError] constructor),
    followed by the properties of these functions.

    Conventions of the model.
      - A JavaScript string is a [string]: a sequence of 8-bit characters.
      - A JavaScript number is an IEEE 754 double, the kernel's [float];
        a BigInt is an integer [Z].
      - A value is a finite tree: undefined, null, a boolean, a number, a
        BigInt, a string, an array or a plain object. A plain object is the
        list of its own enumerable properties in enumeration order; it
        inherits no enumerable property. Functions, symbols, cyclic
        structures and the members of the built-in prototypes are not
        modelled.
      - A JavaScript exception is the [Throw] case of [result]. *)

From Stdlib Require Import String Ascii List ZArith Bool Arith Lia Floats.
From Stdlib Require Import DecimalString.
Import ListNotations.
Open Scope string_scope.

(** [++] is string concatenation throughout; lists are appended with [+++]. *)
Infix "+++" := List.app (right associativity, at level 60).

Set Implicit Arguments.
Set Warnings "-register-all".

(** ** JavaScript values *)

Module Js.

Inductive Val : Type :=
| Undefined
| Null
| Bool (b : bool)
| Num (n : float)
| Str (s : string)
| Arr (items : list Val)
| Obj (props : list (string * Val))
| BigInt (n : Z).

Arguments Num n%_float.
Arguments BigInt n%_Z.

Inductive Error : Type :=
| TypeError (what : string).

Inductive result (A : Type) : Type :=
| Ok (a : A)
| Throw (e : Error).

Arguments Ok {A} a.
Arguments Throw {A} e.

Definition bind {A B} (m : result A) (k : A -> result B) : result B :=
  match m with
  | Ok a => k a
  | Throw e => Throw e
  end.

Fixpoint mapM {A B} (f : A -> result B) (l : list A) : result (list B) :=
  match l with
  | [] => Ok []
  | x :: rest =>
      bind (f x) (fun y => bind (mapM f rest) (fun ys => Ok (y :: ys)))
  end.

(** The double-quote character, code 34. *)
Definition dquote : string := String (ascii_of_nat 34) EmptyString.
Definition backslash : ascii := ascii_of_nat 92.

Definition nat_to_string (n : nat) : string :=
  NilZero.string_of_uint (Nat.to_uint n).

(** The decimal notation of an integer: [BigInt.prototype.toString]. *)
Definition Z_to_string (n : Z) : string :=
  NilZero.string_of_int (Z.to_int n).

(** *** Numbers

    [Number::toString] in radix 10: the shortest decimal that reads back as
    the double, the closest to it among the shortest, laid out in plain or
    exponent notation by the position of the decimal point. *)

Module Number.

#[local] Open Scope Z_scope.

(** A positive double is [m * 2^e]. The fields are numerators over the
    common denominator [den]: the value, and its distance to the middle of
    the gap to the next double above and below. The ends of that interval
    read back as the double when the mantissa is even. *)
Record Scaled : Type := mkScaled {
  value : Z;
  den : Z;
  above : Z;
  below : Z;
  closed : bool
}.

Definition scale (m : positive) (e : Z) : Scaled :=
  let narrow := (Z.eqb (Zpos m) (2 ^ 52) && Z.ltb (-1074) e)%bool in
  let closed := Z.even (Zpos m) in
  if 0 <=? e then
    {| value := 4 * Zpos m * 2 ^ e; den := 4; above := 2 * 2 ^ e;
       below := if narrow then 2 ^ e else 2 * 2 ^ e; closed := closed |}
  else
    {| value := 4 * Zpos m; den := 4 * 2 ^ (- e); above := 2;
       below := if narrow then 1 else 2; closed := closed |}.

(** [c * 10^p] and [x / den], brought to integers that compare alike. *)
Definition lhs (c p den : Z) : Z := c * den * 10 ^ Z.max p 0.
Definition rhs (x p : Z) : Z := x * 10 ^ Z.max (- p) 0.

(** Whether the decimal [c * 10^p] reads back as the double. *)
Definition reads_back (s : Scaled) (c p : Z) : bool :=
  let x := lhs c p (den s) in
  let lo := rhs (value s - below s) p in
  let hi := rhs (value s + above s) p in
  if closed s then (lo <=? x) && (x <=? hi)
  else (lo <? x) && (x <? hi).

(** The least [n], from [n] on, with the double below [10^n]. *)
Fixpoint magnitude (fuel : nat) (s : Scaled) (n : Z) : Z :=
  match fuel with
  | O => n
  | S fuel' =>
      if rhs (value s) n <? lhs 1 n (den s) then n
      else magnitude fuel' s (n + 1)
  end.

(** The shortest decimal [c * 10^p] that reads back as the double, trying
    [k], [k + 1], ... digits; of two decimals of that length the closer
    one, and the even one when they are as close. *)
Fixpoint shortest (fuel : nat) (s : Scaled) (n k : Z) : Z * Z :=
  let p := n - k in
  let lo := rhs (value s) p / lhs 1 p (den s) in
  let hi := lo + 1 in
  let lo_ok := reads_back s lo p in
  let hi_ok := reads_back s hi p in
  let d_lo := rhs (value s) p - lhs lo p (den s) in
  let d_hi := lhs hi p (den s) - rhs (value s) p in
  let pick :=
    if lo_ok && hi_ok then
      Some (if d_lo <? d_hi then lo
            else if d_hi <? d_lo then hi
            else if Z.even lo then lo else hi)
    else if lo_ok then Some lo
    else if hi_ok then Some hi
    else None in
  match pick, fuel with
  | Some c, _ => (c, p)
  | None, O => (lo, p)
  | None, S fuel' => shortest fuel' s n (k + 1)
  end.

Fixpoint strip_zeros (fuel : nat) (c p : Z) : Z * Z :=
  match fuel with
  | O => (c, p)
  | S fuel' =>
      if (c mod 10 =? 0) && (0 <? c) then strip_zeros fuel' (c / 10) (p + 1)
      else (c, p)
  end.

Fixpoint zeros (n : nat) : string :=
  match n with
  | O => EmptyString
  | S n' => String "0"%char (zeros n')
  end.

(** The text of a positive finite double with digits [c], the decimal
    point standing after [n] of them. *)
Definition layout (c n : Z) : string :=
  let digits := Z_to_string c in
  let k := Z.of_nat (String.length digits) in
  if (k <=? n) && (n <=? 21) then
    digits ++ zeros (Z.to_nat (n - k))
  else if (0 <? n) && (n <=? 21) then
    substring 0 (Z.to_nat n) digits ++ "." ++
    substring (Z.to_nat n) (Z.to_nat (k - n)) digits
  else if (-6 <? n) && (n <=? 0) then
    "0." ++ zeros (Z.to_nat (- n)) ++ digits
  else
    let e := n - 1 in
    let exponent := (if e <? 0 then "-" else "+") ++ Z_to_string (Z.abs e) in
    if k =? 1 then digits ++ "e" ++ exponent
    else substring 0 1 digits ++ "." ++
         substring 1 (Z.to_nat (k - 1)) digits ++ "e" ++ exponent.

Definition positive_toString (m : positive) (e : Z) : string :=
  let s := scale m e in
  let estimate := (Z.log2 (Zpos m) + e) * 30103 / 100000 - 2 in
  let n := magnitude 8 s estimate in
  let '(c, p) := shortest 17 s n 1 in
  let '(c, p) := strip_zeros 400 c p in
  layout c (Z.of_nat (String.length (Z_to_string c)) + p).

Definition toString (x : float) : string :=
  match Prim2SF x with
  | S754_nan => "NaN"
  | S754_zero _ => "0"
  | S754_infinity false => "Infinity"
  | S754_infinity true => "-Infinity"
  | S754_finite false m e => positive_toString m e
  | S754_finite true m e => "-" ++ positive_toString m e
  end.

(** The double nearest to an integer. *)
Definition of_Z (z : Z) : float :=
  SF2Prim (binary_normalize prec emax z 0 false).

Definition isFinite (x : float) : bool :=
  match Prim2SF x with
  | S754_nan | S754_infinity _ => false
  | _ => true
  end.

(** ToBoolean: zero and NaN are falsy. *)
Definition toBoolean (x : float) : bool :=
  match Prim2SF x with
  | S754_nan | S754_zero _ => false
  | _ => true
  end.

End Number.

(** [typeof v === 'undefined'] *)
Definition is_undefined (v : Val) : bool :=
  match v with Undefined => true | _ => false end.

(** [typeof v === 'object'] : null, arrays and plain objects. *)
Definition typeof_object (v : Val) : bool :=
  match v with Null | Arr _ | Obj _ => true | _ => false end.

(** [Array.isArray] *)
Definition isArray (v : Val) : bool :=
  match v with Arr _ => true | _ => false end.

(** ToBoolean on the values of the model. *)
Definition truthy (v : Val) : bool :=
  match v with
  | Undefined | Null => false
  | Bool b => b
  | Num n => Number.toBoolean n
  | Str s => negb (String.eqb s EmptyString)
  | Arr _ | Obj _ => true
  | BigInt n => negb (Z.eqb n 0)
  end.

(** [l.map((x, i) => f(i, x))], the index starting at [i]. *)
Fixpoint mapi_from {A B} (i : nat) (f : nat -> A -> B) (l : list A) : list B :=
  match l with
  | [] => []
  | x :: rest => f i x :: mapi_from (S i) f rest
  end.

Definition mapi {A B} (f : nat -> A -> B) (l : list A) : list B :=
  mapi_from 0 f l.

Fixpoint chars (s : string) : list string :=
  match s with
  | EmptyString => []
  | String c rest => String c EmptyString :: chars rest
  end.

(** The own enumerable string-keyed properties of a value, in the order
    [for ... in], [Object.keys] and object spread visit them: the properties
    of an object, the indices of an array or of a string, nothing for the
    other primitives. *)
Definition own_entries (v : Val) : list (string * Val) :=
  match v with
  | Obj props => props
  | Arr items => mapi (fun i x => (nat_to_string i, x)) items
  | Str s => mapi (fun i c => (nat_to_string i, Str c)) (chars s)
  | _ => []
  end.

Definition own_keys (v : Val) : list string := map fst (own_entries v).

Fixpoint assoc (key : string) (props : list (string * Val)) : Val :=
  match props with
  | [] => Undefined
  | (k, v) :: rest => if String.eqb k key then v else assoc key rest
  end.

(** [delete obj[key]] *)
Definition delete (key : string) (props : list (string * Val))
  : list (string * Val) :=
  filter (fun kv => negb (String.eqb (fst kv) key)) props.

(** [v[key]] for a value that is neither null nor undefined: an own property,
    the [length] of an array or a string, or undefined. The read is the
    code's wherever [key] is an own key of [v], as it is in every loop over
    the keys of [v] itself; the members a value inherits from the built-in
    prototypes (constructor, toString, ...) are not modelled. *)
Definition get_own (v : Val) (key : string) : Val :=
  match v with
  | Arr items =>
      if String.eqb key "length" then Num (Number.of_Z (Z.of_nat (List.length items)))
      else assoc key (own_entries v)
  | Str s =>
      if String.eqb key "length" then Num (Number.of_Z (Z.of_nat (String.length s)))
      else assoc key (own_entries v)
  | _ => assoc key (own_entries v)
  end.

(** [v[key]] : reading a property of null or undefined is a TypeError. *)
Definition get_prop (v : Val) (key : string) : result Val :=
  match v with
  | Undefined | Null =>
      Throw (TypeError "Cannot read properties of undefined or null")
  | _ => Ok (get_own v key)
  end.

(** [Object.keys(v)] : a TypeError on null and undefined. *)
Definition Object_keys (v : Val) : result (list string) :=
  match v with
  | Undefined | Null =>
      Throw (TypeError "Cannot convert undefined or null to object")
  | _ => Ok (own_keys v)
  end.

(** [for (const x of v)] : arrays and strings are iterable, nothing else in
    the model is. *)
Definition iterate (v : Val) : result (list Val) :=
  match v with
  | Arr items => Ok items
  | Str s => Ok (map Str (chars s))
  | _ => Throw (TypeError "value is not iterable")
  end.

(** [l.push(x)] *)
Definition push {A} (l : list A) (x : A) : list A := List.app l [x].

(** [l.join(sep)] on a list of strings. *)
Definition join (sep : string) (l : list string) : string :=
  String.concat sep l.

(** *** JSON.stringify *)

Definition hex_digit (n : nat) : ascii :=
  if (n <? 10)%nat then ascii_of_nat (48 + n) else ascii_of_nat (87 + n).

(** QuoteJSONString on one character. *)
Definition json_escape_char (c : ascii) : string :=
  let n := nat_of_ascii c in
  if (n =? 34)%nat then String backslash dquote
  else if (n =? 92)%nat then String backslash (String backslash EmptyString)
  else if (n =? 8)%nat then String backslash "b"
  else if (n =? 9)%nat then String backslash "t"
  else if (n =? 10)%nat then String backslash "n"
  else if (n =? 12)%nat then String backslash "f"
  else if (n =? 13)%nat then String backslash "r"
  else if (n <? 32)%nat then
    String backslash
      ("u00" ++ String (hex_digit (n / 16)) (String (hex_digit (n mod 16)) EmptyString))
  else String c EmptyString.

Fixpoint json_escape (s : string) : string :=
  match s with
  | EmptyString => EmptyString
  | String c rest => json_escape_char c ++ json_escape rest
  end.

Definition json_quote (s : string) : string :=
  dquote ++ json_escape s ++ dquote.

(** [JSON.stringify(v)] : [None] is the undefined it returns for undefined.
    Inside an array undefined is written null; a property whose value is
    undefined is left out; a number that is not finite is written null; a
    BigInt, at any depth, is a TypeError. *)
Fixpoint JSON_stringify (v : Val) : result (option string) :=
  match v with
  | Undefined => Ok None
  | Null => Ok (Some "null")
  | Bool true => Ok (Some "true")
  | Bool false => Ok (Some "false")
  | Num n => Ok (Some (if Number.isFinite n then Number.toString n else "null"))
  | BigInt _ => Throw (TypeError "Do not know how to serialize a BigInt")
  | Str s => Ok (Some (json_quote s))
  | Arr items =>
      bind
        ((fix go (l : list Val) : result (list string) :=
            match l with
            | [] => Ok []
            | x :: rest =>
                bind (JSON_stringify x) (fun t =>
                bind (go rest) (fun ts =>
                Ok (match t with
                    | Some t => t
                    | None => "null"
                    end :: ts)))
            end) items)
        (fun elems => Ok (Some ("[" ++ join "," elems ++ "]")))
  | Obj props =>
      bind
        ((fix go (l : list (string * Val)) : result (list string) :=
            match l with
            | [] => Ok []
            | (k, x) :: rest =>
                bind (JSON_stringify x) (fun t =>
                bind (go rest) (fun ts =>
                Ok (match t with
                    | Some t => (json_quote k ++ ":" ++ t) :: ts
                    | None => ts
                    end)))
            end) props)
        (fun members => Ok (Some ("{" ++ join "," members ++ "}")))
  end.

(** ToString, as applied by [+=] and by template literals. *)
Fixpoint ToString (v : Val) : string :=
  match v with
  | Undefined => "undefined"
  | Null => "null"
  | Bool true => "true"
  | Bool false => "false"
  | Num n => Number.toString n
  | BigInt n => Z_to_string n
  | Str s => s
  | Arr items =>
      join ","
        ((fix go (l : list Val) : list string :=
            match l with
            | [] => []
            | x :: rest =>
                match x with
                | Undefined | Null => EmptyString
                | _ => ToString x
                end :: go rest
            end) items)
  | Obj _ => "[object Object]"
  end.

(** A template literal interpolating a possibly undefined string. *)
Definition show (s : option string) : string :=
  match s with
  | Some t => t
  | None => "undefined"
  end.

End Js.

Import Js.

Notation "x <- m ;; k" := (Js.bind m (fun x => k))
  (at level 61, m at next level, right associativity).

(** ** The escape wrappers ([escape-clients.js])

    Every wrapper class extends [EscapeBase] and only stores its argument in
    the [value] field, so an instance is its class and that field. *)

Inductive EscapeClass : Type :=
| EscapeBase
| EscapeAndDictionary
| EscapeArrayParameters
| EscapeDictionary
| EscapeIdentifier
| EscapeParameter
| EscapeKeysAndValues
| EscapeKeysAndValuesWithExpiresIn.

(** What a template slot can hold: a plain value or a wrapper instance. *)
Inductive Arg : Type :=
| Raw (v : Val)
| Escape (cls : EscapeClass) (value : Val).

(** ** The assembler ([parse-tagged-template.js]) *)

Module Assembler.

Record QueryConfig : Type := mkQueryConfig {
  text : string;
  values : option (list Val)
}.

(** [pg.escapeIdentifier], a function of the pg driver: the identifier
    between double quotes, each embedded double quote doubled. It calls
    [str.replace], which only strings have. *)
Fixpoint double_quotes (s : string) : string :=
  match s with
  | EmptyString => EmptyString
  | String c rest =>
      if Nat.eqb (nat_of_ascii c) 34
      then String c (String c (double_quotes rest))
      else String c (double_quotes rest)
  end.

Definition escapeIdentifier_str (s : string) : string :=
  dquote ++ double_quotes s ++ dquote.

Definition escapeIdentifier (v : Val) : result string :=
  match v with
  | Str s => Ok (escapeIdentifier_str s)
  | _ => Throw (TypeError "str.replace is not a function")
  end.

(** The text of placeholder number [n]. *)
Definition placeholder (n : nat) : string := "$" ++ nat_to_string n.

(** The loop state: the [text] and [values] variables of the closure. *)
Definition State : Type := (string * list Val)%type.

(** [EscapeAndDictionary] : lines 40-58. The loop carries [values] and
    [dictStrings]. *)
Fixpoint andDictionary_loop (dictionary : Val) (keys : list string)
    (vals : list Val) (dictStrings : list string) : list Val * list string :=
  match keys with
  | [] => (vals, dictStrings)
  | key :: rest =>
      let value := get_own dictionary key in
      if is_undefined value then
        andDictionary_loop dictionary rest vals dictStrings
      else
        let vals' := push vals value in
        andDictionary_loop dictionary rest vals'
          (push dictStrings
             (" AND " ++ escapeIdentifier_str key ++ "=" ++
              placeholder (List.length vals')))
  end.

(** [EscapeArrayParameters] : lines 60-72. *)
Fixpoint arrayParameters_loop (arr : list Val) (vals : list Val)
    (paramIndexes : list string) : list Val * list string :=
  match arr with
  | [] => (vals, paramIndexes)
  | value :: rest =>
      let vals' := push vals value in
      arrayParameters_loop rest vals'
        (push paramIndexes (placeholder (List.length vals')))
  end.

(** [EscapeDictionary] : lines 74-86. *)
Fixpoint dictionary_loop (dictionary : Val) (keys : list string)
    (vals : list Val) (dictStrings : list string) : list Val * list string :=
  match keys with
  | [] => (vals, dictStrings)
  | key :: rest =>
      let vals' := push vals (get_own dictionary key) in
      dictionary_loop dictionary rest vals'
        (push dictStrings
           (escapeIdentifier_str key ++ "=" ++ placeholder (List.length vals')))
  end.

(** [EscapeKeysAndValues] : the [argValues.forEach] of lines 118-123, carrying
    [rowValues] and [paramIndexGroups]. *)
Fixpoint keysAndValues_loop (keys : list string) (argValues : list Val)
    (rowValues : list Val) (paramIndexGroups : list (list string))
  : result (list Val * list (list string)) :=
  match argValues with
  | [] => Ok (rowValues, paramIndexGroups)
  | argValue :: rest =>
      row <- mapM (get_prop argValue) keys ;;
      keysAndValues_loop keys rest (List.app rowValues row)
        (push paramIndexGroups
           (mapi (fun i _ =>
                    placeholder
                      (List.length paramIndexGroups * List.length keys + i + 1))
                 keys))
  end.

(** The body of the branch chain of lines 40-174 for an argument that is
    not undefined and is not a wrapper of undefined: the string then bound
    to [arg], and the new [values]. *)
Definition render (arg : Arg) (vals : list Val) : result (string * list Val) :=
  match arg with
  | Escape EscapeAndDictionary dictionary =>
      let '(vals', dictStrings) :=
        andDictionary_loop dictionary (own_keys dictionary) vals [] in
      Ok (join EmptyString dictStrings, vals')
  | Escape EscapeArrayParameters arr =>
      items <- iterate arr ;;
      let '(vals', paramIndexes) := arrayParameters_loop items vals [] in
      Ok ("ARRAY[" ++ join ", " paramIndexes ++ "]", vals')
  | Escape EscapeDictionary dictionary =>
      let '(vals', dictStrings) :=
        dictionary_loop dictionary (own_keys dictionary) vals [] in
      Ok (join ", " dictStrings, vals')
  | Escape EscapeIdentifier value =>
      let argValue := match value with Arr items => items | _ => [value] end in
      escaped <- mapM escapeIdentifier argValue ;;
      Ok (join ", " escaped, vals)
  | Escape EscapeParameter value =>
      let vals' := push vals value in
      Ok (placeholder (List.length vals'), vals')
  | Escape EscapeKeysAndValues value =>
      let argValues := match value with Arr items => items | _ => [value] end in
      keys <- Object_keys (nth 0 argValues Undefined) ;;
      let rowKeys := map escapeIdentifier_str keys in
      rows <- keysAndValues_loop keys argValues [] [] ;;
      let '(rowValues, paramIndexGroups) := rows in
      let groups := map (fun g => "(" ++ join "," g ++ ")") paramIndexGroups in
      Ok ("(" ++ join "," rowKeys ++ ") VALUES " ++ join "," groups,
          List.app vals rowValues)
  | Escape EscapeKeysAndValuesWithExpiresIn value =>
      let spread := own_entries value in
      let found := assoc "expiresIn" spread in
      let expiresIn := if truthy found then found else Undefined in
      let argValue :=
        if truthy found
        then delete "expiresAtEpoch" (delete "expiresAt" (delete "expiresIn" spread))
        else spread in
      let keys := map fst argValue in
      let rowKeys := map escapeIdentifier_str keys in
      let rowValues := map (fun key => assoc key argValue) keys in
      let index := List.length keys in
      let paramIndexes := mapi (fun i _ => placeholder (i + 1)) keys in
      if truthy expiresIn then
        Ok ("(" ++
            join ", " (push (push rowKeys (escapeIdentifier_str "expiresAt"))
                             (escapeIdentifier_str "expiresAtEpoch")) ++
            ") VALUES (" ++
            join ", "
              (push (push paramIndexes
                       ("now() + " ++ placeholder (index + 1) ++ "::interval SECOND"))
                    ("FLOOR(EXTRACT(EPOCH FROM NOW())) + " ++ placeholder (index + 2))) ++
            ")",
            List.app vals (push (push rowValues expiresIn) expiresIn))
      else
        Ok ("(" ++ join ", " rowKeys ++ ") VALUES (" ++ join ", " paramIndexes ++ ")",
            List.app vals rowValues)
  | Escape EscapeBase value =>
      (* no [instanceof] test matches; the instance is an object *)
      json <- JSON_stringify (Obj [("value", value)]) ;;
      Ok (show json, vals)
  | Raw v =>
      if typeof_object v then
        json <- JSON_stringify v ;;
        Ok (show json, vals)
      else Ok (ToString v, vals)
  end.

(** One call of the [forEach] callback (lines 30-178); [arg] is
    [args[index]], [None] when the index is past the end of [args]. *)
Definition step (stringSegment : string) (arg : option Arg) (st : State)
  : result State :=
  let '(text, vals) := st in
  let text := text ++ stringSegment in
  match arg with
  | None | Some (Raw Undefined) => Ok (text, vals)
  | Some (Escape _ Undefined) => Ok (text, vals)
  | Some arg =>
      r <- render arg vals ;;
      let '(rendered, vals') := r in
      Ok (text ++ rendered, vals')
  end.

(** [strings.forEach((stringSegment, index) => ...)] from [index] on. *)
Fixpoint forEach (strings : list string) (index : nat) (args : list Arg)
    (st : State) : result State :=
  match strings with
  | [] => Ok st
  | stringSegment :: rest =>
      st' <- step stringSegment (nth_error args index) st ;;
      forEach rest (S index) args st'
  end.

Definition run (strings : list string) (args : list Arg) : result State :=
  forEach strings 0 args (EmptyString, []).

Definition parseTaggedTemplate (strings : list string) (args : list Arg)
  : result QueryConfig :=
  st <- run strings args ;;
  let '(text, vals) := st in
  Ok {| text := text;
        values := match vals with [] => None | _ :: _ => Some vals end |}.

End Assembler.

(** ** Regular expressions

    The patterns of the classifier are sequences of three kinds of pieces:
    literal text, a lazy run of one or more characters other than line
    terminators (captured or not), and a captured choice between literal
    words. [exec] is the backtracking search of [RegExp.prototype.exec]
    on such patterns; it returns the captured groups in order. *)

Module Regex.

Inductive Piece : Type :=
| Lit (s : string)
| LazyAny (capture : bool)
| Choice (words : list string).

Record Pattern : Type := mkPattern {
  anchored_start : bool;
  pieces : list Piece;
  anchored_end : bool
}.

(** The rest of [s] after the prefix [p], if [s] starts with [p]. *)
Fixpoint strip_prefix (p s : string) : option string :=
  match p with
  | EmptyString => Some s
  | String a p' =>
      match s with
      | EmptyString => None
      | String b s' => if Ascii.eqb a b then strip_prefix p' s' else None
      end
  end.

(** The dot of a pattern matches neither line feed nor carriage return. *)
Definition line_terminator (c : ascii) : bool :=
  let n := nat_of_ascii c in Nat.eqb n 10 || Nat.eqb n 13.

Definition snoc (s : string) (c : ascii) : string :=
  s ++ String c EmptyString.

(** Matches [pieces] at the start of [s]; [caps] are the groups captured
    so far. A lazy run first tries the rest of the pattern after one
    character and takes one more character each time that fails. *)
Fixpoint match_pieces (at_end : bool) (pieces : list Piece) (s : string)
    (caps : list string) : option (list string) :=
  match pieces with
  | [] =>
      if at_end then
        match s with EmptyString => Some caps | String _ _ => None end
      else Some caps
  | Lit l :: rest =>
      match strip_prefix l s with
      | Some s' => match_pieces at_end rest s' caps
      | None => None
      end
  | LazyAny capture :: rest =>
      (fix lazy (taken : string) (s : string) : option (list string) :=
         match s with
         | EmptyString => None
         | String c s' =>
             if line_terminator c then None
             else
               let taken' := snoc taken c in
               match match_pieces at_end rest s'
                       (if capture then push caps taken' else caps) with
               | Some r => Some r
               | None => lazy taken' s'
               end
         end) EmptyString s
  | Choice words :: rest =>
      (fix choose (ws : list string) : option (list string) :=
         match ws with
         | [] => None
         | w :: ws' =>
             match
               match strip_prefix w s with
               | Some s' => match_pieces at_end rest s' (push caps w)
               | None => None
               end
             with
             | Some r => Some r
             | None => choose ws'
             end
         end) words
  end.

(** The leftmost match of an unanchored pattern. *)
Fixpoint search (at_end : bool) (pieces : list Piece) (s : string)
  : option (list string) :=
  match match_pieces at_end pieces s [] with
  | Some r => Some r
  | None =>
      match s with
      | EmptyString => None
      | String _ s' => search at_end pieces s'
      end
  end.

Definition exec (p : Pattern) (s : string) : option (list string) :=
  if anchored_start p then match_pieces (anchored_end p) (pieces p) s []
  else search (anchored_end p) (pieces p) s.

(** [/^...$/] *)
Definition whole (pieces : list Piece) : Pattern :=
  mkPattern true pieces true.

End Regex.

(** ** The classifier ([generate-db-error-message.js]) *)

Module Classifier.

Import Regex.

(** [s.split(sep)] for a one-character separator, written over the test
    [is_sep] that recognises it; [cur] is the token being read. *)
Fixpoint split_acc (is_sep : ascii -> bool) (cur : string) (s : string)
  : list string :=
  match s with
  | EmptyString => [cur]
  | String c rest =>
      if is_sep c then cur :: split_acc is_sep EmptyString rest
      else split_acc is_sep (snoc cur c) rest
  end.

Definition split (sep : ascii) (s : string) : list string :=
  split_acc (Ascii.eqb sep) EmptyString s.

Definition space : ascii := ascii_of_nat 32.

(** [queryString.split(' ').filter(s => s.length > 1)[0]], [None] being the
    undefined of an empty array. *)
Definition getQueryMethod (queryString : string) : option string :=
  hd_error
    (filter (fun s => Nat.ltb 1 (String.length s)) (split space queryString)).

(** The error handed over by the caller: a driver error with [query] and
    [parameters] copied onto it. An absent field is [None]. *)
Record DatabaseErrorInput : Type := mkInput {
  message : string;
  detail : option string;
  table : option string;
  query : option string;
  parameters : option (list Val);
  args : option Val
}.

Record Results : Type := mkResults {
  res_message : string;
  isTimeoutError : bool;
  isTooManyConnectionsError : bool
}.

(** [x || ''] on an optional string. *)
Definition or_empty (x : option string) : string :=
  match x with
  | Some s => s
  | None => EmptyString
  end.

(** [errorQuery.replace(/\n/g, '')] *)
Fixpoint strip_newlines (s : string) : string :=
  match s with
  | EmptyString => EmptyString
  | String c rest =>
      if Nat.eqb (nat_of_ascii c) 10 then strip_newlines rest
      else String c (strip_newlines rest)
  end.

(** [errorParameters[0]] : a TypeError when [parameters] is undefined. *)
Definition first_parameter (errorParameters : option (list Val)) : result Val :=
  match errorParameters with
  | None => Throw (TypeError "Cannot read properties of undefined (reading '0')")
  | Some ps => Ok (nth 0 ps Undefined)
  end.

Definition tooManyClientsRegex : Pattern :=
  whole [Lit "sorry, too many clients already"].
Definition queryTimeoutRegex : Pattern :=
  whole [Lit "Query read timeout"].
Definition deleteFkRegex : Pattern :=
  whole [Lit ("update or delete on table " ++ dquote); LazyAny true;
         Lit (dquote ++ " violates foreign key constraint " ++ dquote);
         LazyAny false;
         Lit (dquote ++ " on table " ++ dquote); LazyAny true; Lit dquote].
Definition insertFkRegex : Pattern :=
  whole [Lit ("insert or update on table " ++ dquote); LazyAny true;
         Lit (dquote ++ " violates foreign key constraint " ++ dquote);
         LazyAny true; Lit dquote].
Definition duplicateKeyRegex : Pattern :=
  whole [Lit ("duplicate key value violates unique constraint " ++ dquote);
         LazyAny true; Lit dquote].
Definition tooLongRegex : Pattern :=
  whole [Lit "value too long for type "; LazyAny true].
Definition analyzeQueryRegex : Pattern :=
  mkPattern false
    [Choice ["UPDATE"; "INSERT"]; LazyAny false; Lit dquote; LazyAny true;
     Lit dquote]
    false.
Definition missingRelationRegex : Pattern :=
  whole [Lit ("relation " ++ dquote); LazyAny true;
         Lit (dquote ++ " does not exist")].
Definition nullValuesRegex : Pattern :=
  whole [Lit ("null value in column " ++ dquote); LazyAny true;
         Lit (dquote ++ " violates not-null constraint")].
Definition undefinedValuesRegex : Pattern :=
  whole [Lit "UNDEFINED_VALUE: Undefined values are not allowed"].

(** Group [i] of a match, the whole match being group 0 and not kept. *)
Definition group (i : nat) (caps : list string) : string :=
  nth (i - 1) caps EmptyString.

(** The initial [results] object: the fallback of an unrecognised error. *)
Definition default_results (e : DatabaseErrorInput) : Results :=
  {| res_message :=
       "Unrecognized Database Error: " ++ message e ++ ". Detail: " ++
       show (detail e);
     isTimeoutError := false;
     isTooManyConnectionsError := false |}.

Definition with_message (r : Results) (m : string) : Results :=
  {| res_message := m;
     isTimeoutError := isTimeoutError r;
     isTooManyConnectionsError := isTooManyConnectionsError r |}.

Definition generateDbErrorMessage (error : DatabaseErrorInput) : result Results :=
  let errorDetail := detail error in
  let errorMessage := message error in
  let errorParameters := parameters error in
  let errorQuery := or_empty (query error) in
  let errorTable := or_empty (table error) in
  let results := default_results error in
  match exec tooManyClientsRegex errorMessage with
  | Some _ =>
      Ok {| res_message :=
              "Too many database connections, try again later. Running query: "
              ++ strip_newlines errorQuery;
            isTimeoutError := false;
            isTooManyConnectionsError := true |}
  | None =>
  match exec queryTimeoutRegex errorMessage with
  | Some _ =>
      Ok {| res_message :=
              "Query timed out. Running query: " ++ strip_newlines errorQuery;
            isTimeoutError := true;
            isTooManyConnectionsError := false |}
  | None =>
  match exec deleteFkRegex errorMessage with
  | Some deleteFkResult =>
      let touchedTable := group 1 deleteFkResult in
      let queryMethod := getQueryMethod errorQuery in
      Ok (with_message results
            ("Could not " ++ show queryMethod ++ " item from " ++ dquote ++
             touchedTable ++ dquote ++ " table. Detail: " ++ show errorDetail))
  | None =>
  match exec insertFkRegex errorMessage with
  | Some insertFkResult =>
      let touchedTable := group 1 insertFkResult in
      itemId <- first_parameter errorParameters ;;
      let queryMethod := getQueryMethod errorQuery in
      Ok (with_message results
            ("Could not " ++ show queryMethod ++ " item " ++ dquote ++
             ToString itemId ++ dquote ++ " into " ++ dquote ++ touchedTable ++
             dquote ++ " table. Detail: " ++ show errorDetail))
  | None =>
  match exec duplicateKeyRegex errorMessage with
  | Some _ =>
      let touchedTable := errorTable in
      itemId <- first_parameter errorParameters ;;
      itemId <- (if typeof_object itemId
                 then json <- JSON_stringify itemId ;; Ok (show json)
                 else Ok (ToString itemId)) ;;
      let queryMethod := getQueryMethod errorQuery in
      Ok (with_message results
            ("Could not " ++ show queryMethod ++ " item " ++ dquote ++ itemId ++
             dquote ++ " into " ++ dquote ++ touchedTable ++ dquote ++
             " table. Detail: " ++ show errorDetail))
  | None =>
  match exec tooLongRegex errorMessage with
  | Some tooLongResult =>
      match exec analyzeQueryRegex errorQuery with
      | None => Ok results
      | Some analyzeQueryResult =>
          let queryMethod := group 1 analyzeQueryResult in
          let touchedTable := group 2 analyzeQueryResult in
          let dataType := group 1 tooLongResult in
          Ok (with_message results
                ("Could not " ++ queryMethod ++ " item into " ++ dquote ++
                 touchedTable ++ dquote ++
                 " table. A value is too long for db type " ++ dquote ++
                 dataType ++ dquote ++ "."))
      end
  | None =>
  match exec missingRelationRegex errorMessage with
  | Some missingRelationResult =>
      let touchedTable := group 1 missingRelationResult in
      let queryMethod := getQueryMethod errorQuery in
      Ok (with_message results
            ("Could not perform " ++ show queryMethod ++
             " operation on missing table " ++ dquote ++ touchedTable ++
             dquote ++ "."))
  | None =>
  match exec nullValuesRegex errorMessage with
  | Some nullValuesResult =>
      let badColumn := group 1 nullValuesResult in
      let queryMethod := getQueryMethod errorQuery in
      Ok (with_message results
            ("Could not " ++ show queryMethod ++ " item in " ++ dquote ++
             errorTable ++ dquote ++ " table. Unexpected null value for " ++
             dquote ++ badColumn ++ dquote ++ " column."))
  | None =>
  match exec undefinedValuesRegex errorMessage with
  | Some _ =>
      json <- match args error with
              | Some a => JSON_stringify a
              | None => Ok None
              end ;;
      Ok (with_message results
            ("Unexpected undefined value applying data to database. Args: " ++
             show json ++ "."))
  | None => Ok results
  end end end end end end end end end.

End Classifier.

(** ** The error wrapper ([errors.js], class [DBError]) *)

Module Errors.

Import Classifier.

(** An instance of [DBError]: [originalError] stays abstract here, the
    properties below only read [message] and [statusCode]. *)
Record DBError : Type := mkDBError {
  db_message : string;
  statusCode : nat
}.

(** What the constructor can be given: another [DBError], a bare string, or
    an error object, which is or is not an instance of pg's
    [DatabaseError]. *)
Inductive Original : Type :=
| OfDBError (e : DBError)
| OfString (s : string)
| OfError (isDatabaseError : bool) (e : DatabaseErrorInput).

(** [hay.includes(needle)] *)
Fixpoint includes (needle hay : string) : bool :=
  match Regex.strip_prefix needle hay with
  | Some _ => true
  | None =>
      match hay with
      | EmptyString => false
      | String _ rest => includes needle rest
      end
  end.

(** Whether the constructor hands the error to the classifier (line 52). *)
Definition is_classified (isDatabaseError : bool) (e : DatabaseErrorInput) : bool :=
  let couldBeTimeoutError := includes "Query read timeout" (message e) in
  let couldBeUndefinedError := includes "UNDEFINED_VALUE" (message e) in
  negb (negb isDatabaseError && negb couldBeTimeoutError &&
        negb couldBeUndefinedError).

(** [new DBError(originalError)] *)
Definition new_DBError (originalError : Original) : result DBError :=
  match originalError with
  | OfDBError e =>
      Ok {| db_message := db_message e; statusCode := statusCode e |}
  | OfString s => Ok {| db_message := s; statusCode := 400 |}
  | OfError isDatabaseError e =>
      if is_classified isDatabaseError e then
        r <- generateDbErrorMessage e ;;
        Ok {| db_message := res_message r;
              statusCode :=
                if isTimeoutError r || isTooManyConnectionsError r
                then 429 else 400 |}
      else Ok {| db_message := message e; statusCode := 400 |}
  end.

End Errors.

(** ** The failure path of [PgClient.query] ([errors.js], lines 383-389)

    When the driver rejects the query, the catch block copies the text and
    the values of the query config onto the error and wraps it. *)

Module Client.

Import Assembler Classifier Errors.



End Client.

(** ** Filter keys ([examineFilterKeys]) *)

Module FilterKeys.

Record ExamineFilterKeysResults : Type := mkExamine {
  areEmptyStringFilterKeys : bool;
  areFilterKeysEmpty : bool;
  areFilterKeysFalsy : bool;
  areAllFilterKeysUndefined : bool
}.

(** [v === ''] *)
Definition is_empty_string (v : Val) : bool :=
  match v with
  | Str EmptyString => true
  | _ => false
  end.

(** The [for ... in] loop with its [break]; the state is
    [areEmptyStringFilterKeys] and [areAllFilterKeysUndefined]. The keys it
    is given are the own keys: a value of the model inherits no enumerable
    property, so [for ... in] and [Object.keys] list the same keys. *)
Fixpoint examine_loop (filterKeys : Val) (keys : list string)
    (areEmptyString areAllUndefined : bool) : bool * bool :=
  match keys with
  | [] => (areEmptyString, areAllUndefined)
  | key :: rest =>
      let areEmptyString :=
        if is_empty_string (get_own filterKeys key) then true
        else areEmptyString in
      if negb (is_undefined (get_own filterKeys key))
      then (areEmptyString, false)
      else examine_loop filterKeys rest areEmptyString areAllUndefined
  end.

Definition examineFilterKeys (filterKeys : Val) : ExamineFilterKeysResults :=
  let areFilterKeysFalsy := if negb (truthy filterKeys) then true else false in
  let areFilterKeysEmpty :=
    if negb areFilterKeysFalsy &&
       Nat.eqb (List.length (own_keys filterKeys)) 0
    then true else false in
  let '(areEmptyStringFilterKeys, areAllFilterKeysUndefined) :=
    examine_loop filterKeys (own_keys filterKeys) false true in
  {| areEmptyStringFilterKeys := areEmptyStringFilterKeys;
     areFilterKeysEmpty := areFilterKeysEmpty;
     areFilterKeysFalsy := areFilterKeysFalsy;
     areAllFilterKeysUndefined := areAllFilterKeysUndefined |}.

End FilterKeys.

(** * Notions the properties are stated with *)

Module Notions.

Import Assembler Regex Classifier.

(** The keys of a dictionary whose value is not undefined. *)
Definition defined_keys (dictionary : Val) : list string :=
  filter (fun key => negb (is_undefined (get_own dictionary key)))
         (own_keys dictionary).

Definition and_clause (n : nat) (key : string) : string :=
  " AND " ++ escapeIdentifier_str key ++ "=" ++ placeholder n.

Definition set_clause (n : nat) (key : string) : string :=
  escapeIdentifier_str key ++ "=" ++ placeholder n.

(** Raw primitives: the values the assembler writes out as they are. *)
Inductive Primitive : Type :=
| PString (s : string)
| PNumber (n : float)
| PBoolean (b : bool)
| PNull.

Definition of_primitive (p : Primitive) : Val :=
  match p with
  | PString s => Str s
  | PNumber n => Num n
  | PBoolean b => Bool b
  | PNull => Null
  end.

(** The literal text of a primitive. *)
Definition literal_text (p : Primitive) : string :=
  match p with
  | PString s => s
  | PNumber n => Number.toString n
  | PBoolean true => "true"
  | PBoolean false => "false"
  | PNull => "null"
  end.

Definition LF : ascii := ascii_of_nat 10.

(** The white space of a pattern's [\s] among 8-bit characters: tab, line
    feed, vertical tab, form feed, carriage return, space and the
    no-break space. *)
Definition is_whitespace (c : ascii) : bool :=
  let n := nat_of_ascii c in
  (Nat.leb 9 n && Nat.leb n 13) || Nat.eqb n 32 || Nat.eqb n 160.

(** The method extraction as section 4.3 of the specification words it:
    the text is split on white space, not on the space character. It is
    only compared with [getQueryMethod], which is the code. *)
Definition spec_getQueryMethod (queryString : string) : option string :=
  hd_error
    (filter (fun s => Nat.ltb 1 (String.length s))
            (split_acc is_whitespace EmptyString queryString)).

(** Whether some character of [s] passes the test [p]. *)
Fixpoint any_char (p : ascii -> bool) (s : string) : bool :=
  match s with
  | EmptyString => false
  | String c rest => p c || any_char p rest
  end.

Definition insertFk_message : string :=
  "insert or update on table " ++ dquote ++ "books" ++ dquote ++
  " violates foreign key constraint " ++ dquote ++ "books_authorId_fkey" ++
  dquote.

Definition duplicateKey_message : string :=
  "duplicate key value violates unique constraint " ++ dquote ++
  "users_email_key" ++ dquote.

Definition tooLong_input : DatabaseErrorInput :=
  {| message := "value too long for type character varying(5)";
     detail := None; table := Some "users";
     query := Some "INSERT INTO users (name) VALUES ($1)";
     parameters := Some [Str "a long name"]; args := None |}.

Definition timeout_input : DatabaseErrorInput :=
  {| message := "Query read timeout"; detail := None; table := None;
     query := Some "SELECT 1"; parameters := None; args := None |}.

Definition timeout_results : Results :=
  {| res_message := "Query timed out. Running query: SELECT 1";
     isTimeoutError := true; isTooManyConnectionsError := false |}.

End Notions.

(** * Further notions, for the properties beyond the claims *)

Module MoreNotions.

Import Assembler Regex Classifier.

(** The fragments with one piece of text after each of the first ones. *)
Fixpoint interleave (strings : list string) (between : list string) : string :=
  match strings with
  | [] => EmptyString
  | s :: rest =>
      match between with
      | [] => s ++ interleave rest []
      | b :: bs => s ++ b ++ interleave rest bs
      end
  end.

(** Placeholders [n], [n+1], ... , [n+count-1]. *)
Definition placeholders (n count : nat) : list string :=
  map placeholder (seq n count).

(** The placeholders of row number [row] of a [keysAndValues] wrapper with
    [width] columns. *)
Definition row_group (width row : nat) : string :=
  "(" ++ join "," (placeholders (row * width + 1) width) ++ ")".

(** The lazy run of [match_pieces], as a function of its own. *)
Section LazyRun.
Variable at_end : bool.
Variable rest : list Piece.
Variable capture : bool.
Variable caps : list string.

Fixpoint lazy_run (taken : string) (s : string) : option (list string) :=
  match s with
  | EmptyString => None
  | String c s' =>
      if line_terminator c then None
      else
        let taken' := snoc taken c in
        match match_pieces at_end rest s'
                (if capture then push caps taken' else caps) with
        | Some r => Some r
        | None => lazy_run taken' s'
        end
  end.
End LazyRun.

(** A name a pattern can capture between double quotes without
    backtracking: not empty, no double quote, no line terminator. *)
Fixpoint plain_chars (s : string) : bool :=
  match s with
  | EmptyString => true
  | String c rest =>
      negb (Nat.eqb (nat_of_ascii c) 34) && negb (line_terminator c) &&
      plain_chars rest
  end.

Definition plain_name (s : string) : bool :=
  negb (String.eqb s EmptyString) && plain_chars s.

(** The nine patterns of the classifier, in the order it tries them. *)
Definition rule_patterns : list Pattern :=
  [tooManyClientsRegex; queryTimeoutRegex; deleteFkRegex; insertFkRegex;
   duplicateKeyRegex; tooLongRegex; missingRelationRegex; nullValuesRegex;
   undefinedValuesRegex].

Definition matches (p : Pattern) (s : string) : bool :=
  match exec p s with
  | Some _ => true
  | None => false
  end.

Definition first_char (s : string) : option ascii :=
  match s with
  | String c _ => Some c
  | EmptyString => None
  end.

Definition pattern_first_char (p : Pattern) : option ascii :=
  match pieces p with
  | Lit (String a _) :: _ => Some a
  | _ => None
  end.

Definition dq : ascii := ascii_of_nat 34.

(** The text written for the item of the duplicate-key rule. *)
Definition item_text (itemId : Val) : result string :=
  if typeof_object itemId then json <- JSON_stringify itemId ;; Ok (show json)
  else Ok (ToString itemId).

(** The payload of a [keysAndValuesWithExpiresIn] wrapper without the three
    keys the branch deletes. *)
Definition without_expiry (props : list (string * Val)) : list (string * Val) :=
  delete "expiresAtEpoch" (delete "expiresAt" (delete "expiresIn" props)).

(** [typeof filterKeys[key] !== 'undefined'] *)
(** [JSON.stringify] accepts the value, if it is one the assembler hands
    to it (an array, a plain object or null). *)
Definition serialisable (v : Val) : Prop :=
  typeof_object v = true -> exists json, JSON_stringify v = Ok json.

(** [JSON.stringify(error?.args)] *)
Definition args_json (e : DatabaseErrorInput) : result (option string) :=
  match args e with
  | Some a => JSON_stringify a
  | None => Ok None
  end.

Definition is_defined_at (filterKeys : Val) (key : string) : bool :=
  negb (is_undefined (get_own filterKeys key)).

End MoreNotions.

(** * Properties of the assembler *)

Module AssemblerFacts.

Import Assembler Notions.

Lemma append_assoc (a b c : string) : (a ++ b) ++ c = a ++ b ++ c.
Proof.
  induction a as [|ch a IH]; simpl; [reflexivity | now rewrite IH].
Qed.

Lemma append_empty_r (a : string) : a ++ EmptyString = a.
Proof.
  induction a as [|ch a IH]; simpl; [reflexivity | now rewrite IH].
Qed.

(** Dropping the first argument moves every index down by one. *)
Lemma forEach_shift (strings : list string) :
  forall (index : nat) (x : Arg) (args : list Arg) (st : State),
    forEach strings (S index) (x :: args) st = forEach strings index args st.
Proof.
  induction strings as [|seg rest IH]; intros index x args st; simpl.
  - reflexivity.
  - destruct (step seg (nth_error args index) st) as [st'|e]; simpl.
    + apply IH.
    + reflexivity.
Qed.

(** A text segment split in two around a skipped slot. *)
Lemma step_append (a b : string) (arg : option Arg) (text : string)
    (vals : list Val) :
  step b arg (text ++ a, vals) = step (a ++ b) arg (text, vals).
Proof.
  unfold step. now rewrite append_assoc.
Qed.

Lemma step_escape_undefined (seg : string) (cls : EscapeClass) (st : State) :
  step seg (Some (Escape cls Undefined)) st = step seg None st.
Proof.
  destruct st as [text vals]. reflexivity.
Qed.

Lemma step_raw_undefined (seg : string) (st : State) :
  step seg (Some (Raw Undefined)) st = step seg None st.
Proof.
  destruct st as [text vals]. reflexivity.
Qed.

Lemma forEach_skip_slot (cls : EscapeClass) (a b : string) (s2 : list string)
    (a2 : list Arg) :
  forall (s1 : list string) (a1 : list Arg) (st : State),
    List.length a1 = List.length s1 ->
    forEach (s1 +++ a :: b :: s2) 0 (a1 +++ Escape cls Undefined :: a2) st
    = forEach (s1 +++ (a ++ b) :: s2) 0 (a1 +++ a2) st.
Proof.
  induction s1 as [|seg s1 IH]; intros a1 st Hlen.
  - destruct a1 as [|y a1]; [|discriminate Hlen].
    destruct st as [text vals].
    cbn [List.app forEach nth_error].
    rewrite step_escape_undefined.
    change (step a None (text, vals)) with (@Ok State (text ++ a, vals)).
    cbn [bind]. rewrite step_append.
    destruct (step (a ++ b) _ (text, vals)) as [st'|e]; cbn [bind];
      [apply forEach_shift | reflexivity].
  - destruct a1 as [|y a1]; [discriminate Hlen|].
    injection Hlen as Hlen.
    cbn [List.app forEach nth_error].
    destruct (step seg (Some y) st) as [st'|e]; cbn [bind]; [|reflexivity].
    rewrite !forEach_shift. now apply IH.
Qed.

Lemma forEach_undefined_slot (cls : EscapeClass) (strings : list string) :
  forall (index : nat) (a1 a2 : list Arg) (st : State),
    forEach strings index (a1 +++ Escape cls Undefined :: a2) st
    = forEach strings index (a1 +++ Raw Undefined :: a2) st.
Proof.
  induction strings as [|seg rest IH]; intros index a1 a2 st; cbn [forEach].
  - reflexivity.
  - assert (Hstep :
      step seg (nth_error (a1 +++ Escape cls Undefined :: a2) index) st
      = step seg (nth_error (a1 +++ Raw Undefined :: a2) index) st).
    { destruct (Nat.lt_ge_cases index (List.length a1)) as [Hlt|Hge].
      - now rewrite !nth_error_app1 by exact Hlt.
      - rewrite !nth_error_app2 by exact Hge.
        destruct (index - List.length a1) as [|k]; cbn [nth_error].
        + now rewrite step_escape_undefined, step_raw_undefined.
        + reflexivity. }
    rewrite Hstep.
    destruct (step seg (nth_error (a1 +++ Raw Undefined :: a2) index) st);
      cbn [bind]; [apply IH | reflexivity].
Qed.

(** The empty-array [keysAndValues] wrapper makes its callback throw. *)
Lemma step_empty_keysAndValues (seg : string) (st : State) :
  exists e,
    step seg (Some (Escape EscapeKeysAndValues (Arr []))) st = Throw e.
Proof.
  destruct st as [text vals]. eexists. reflexivity.
Qed.

Lemma forEach_empty_keysAndValues (strings : list string) :
  forall (index offset : nat) (args : list Arg) (st : State),
    offset < List.length strings ->
    nth_error args (index + offset) = Some (Escape EscapeKeysAndValues (Arr [])) ->
    exists e, forEach strings index args st = Throw e.
Proof.
  induction strings as [|seg rest IH]; intros index offset args st Hlt Hnth.
  - simpl in Hlt. lia.
  - cbn [forEach]. destruct offset as [|offset].
    + rewrite Nat.add_0_r in Hnth. rewrite Hnth.
      destruct (step_empty_keysAndValues seg st) as [e He].
      rewrite He. exists e. reflexivity.
    + destruct (step seg (nth_error args index) st) as [st'|e]; cbn [bind].
      * apply (IH (S index) offset).
        -- simpl in Hlt. lia.
        -- now rewrite Nat.add_succ_comm.
      * exists e. reflexivity.
Qed.

Lemma length_push {A} (l : list A) (x : A) :
  List.length (push l x) = S (List.length l).
Proof.
  unfold push. rewrite length_app. simpl. lia.
Qed.

Lemma andDictionary_loop_spec (dictionary : Val) (keys : list string) :
  forall (vals : list Val) (dictStrings : list string),
    andDictionary_loop dictionary keys vals dictStrings
    = (vals +++
       map (get_own dictionary)
         (filter (fun key => negb (is_undefined (get_own dictionary key))) keys),
       dictStrings +++
       mapi_from (S (List.length vals)) and_clause
         (filter (fun key => negb (is_undefined (get_own dictionary key))) keys)).
Proof.
  induction keys as [|key rest IH]; intros vals dictStrings.
  - simpl. now rewrite !app_nil_r.
  - cbn [andDictionary_loop filter].
    destruct (is_undefined (get_own dictionary key)) eqn:Hundef; cbn [negb].
    + apply IH.
    + rewrite IH. rewrite length_push. unfold push.
      cbn [map mapi_from]. rewrite <- !app_assoc. reflexivity.
Qed.

Lemma dictionary_loop_spec (dictionary : Val) (keys : list string) :
  forall (vals : list Val) (dictStrings : list string),
    dictionary_loop dictionary keys vals dictStrings
    = (vals +++ map (get_own dictionary) keys,
       dictStrings +++ mapi_from (S (List.length vals)) set_clause keys).
Proof.
  induction keys as [|key rest IH]; intros vals dictStrings.
  - simpl. now rewrite !app_nil_r.
  - cbn [dictionary_loop]. rewrite IH. rewrite length_push. unfold push.
    cbn [map mapi_from]. rewrite <- !app_assoc. reflexivity.
Qed.

Lemma step_primitive (seg : string) (p : Primitive) (text : string)
    (vals : list Val) :
  step seg (Some (Raw (of_primitive p))) (text, vals)
  = Ok ((text ++ seg) ++ literal_text p, vals).
Proof.
  destruct p as [s|n|[|]|]; reflexivity.
Qed.

Lemma forEach_primitives (strings : list string) (prims : list Primitive) :
  forall (index : nat) (text : string) (vals : list Val),
  exists text',
    forEach strings index (map (fun p => Raw (of_primitive p)) prims) (text, vals)
    = Ok (text', vals).
Proof.
  induction strings as [|seg rest IH]; intros index text vals; cbn [forEach].
  - exists text. reflexivity.
  - rewrite nth_error_map.
    destruct (nth_error prims index) as [p|]; cbn [option_map].
    + rewrite step_primitive. cbn [bind]. apply IH.
    + cbn [step bind]. apply IH.
Qed.

(** The [parameter] branch binds one value and writes its 1-based index. *)
Lemma render_parameter (value : Val) (vals : list Val) :
  render (Escape EscapeParameter value) vals
  = Ok (placeholder (S (List.length vals)), vals +++ [value]).
Proof.
  unfold render. now rewrite length_push.
Qed.

Lemma arrayParameters_loop_spec (arr : list Val) :
  forall (vals : list Val) (paramIndexes : list string),
    arrayParameters_loop arr vals paramIndexes
    = (vals +++ arr,
       paramIndexes +++
       mapi_from (S (List.length vals)) (fun n _ => placeholder n) arr).
Proof.
  induction arr as [|value rest IH]; intros vals paramIndexes.
  - simpl. now rewrite !app_nil_r.
  - cbn [arrayParameters_loop]. rewrite IH. rewrite length_push. unfold push.
    cbn [mapi_from]. rewrite <- !app_assoc. reflexivity.
Qed.

(** The [keysAndValues] branch never reads [values]: its text is the one it
    writes when nothing is bound yet, its row values go after [vals]. *)
Lemma render_keysAndValues_ignores_values (value : Val) (vals : list Val) :
  render (Escape EscapeKeysAndValues value) vals
  = (r <- render (Escape EscapeKeysAndValues value) [] ;;
     Ok (fst r, vals +++ snd r)).
Proof.
  unfold render.
  destruct (Object_keys _) as [keys|e]; cbn [bind]; [|reflexivity].
  destruct (keysAndValues_loop keys _ [] []) as [[rowValues groups]|e];
    cbn [bind]; reflexivity.
Qed.

Lemma render_keysAndValuesWithExpiresIn_ignores_values (value : Val)
    (vals : list Val) :
  render (Escape EscapeKeysAndValuesWithExpiresIn value) vals
  = (r <- render (Escape EscapeKeysAndValuesWithExpiresIn value) [] ;;
     Ok (fst r, vals +++ snd r)).
Proof.
  unfold render.
  destruct (truthy (if truthy _ then _ else Undefined)); reflexivity.
Qed.

(** ** The claims on the assembler *)

(** C1 (fails on the code). The placeholders of a [keysAndValues] wrapper are
    numbered from 1 whatever [values] already holds: after one bound
    parameter the row is written [$1] although its value is the second entry
    of [values], so the numbers of the assembled text repeat instead of
    increasing. *)
Theorem C1_keysAndValues_numbering_restarts :
  parseTaggedTemplate
    ["UPDATE a SET n = "; "; INSERT INTO b "; EmptyString]
    [Escape EscapeParameter (Str "x");
     Escape EscapeKeysAndValues (Obj [("id", Num 1)])]
  = Ok {| text := "UPDATE a SET n = $1; INSERT INTO b (" ++ dquote ++ "id" ++
                  dquote ++ ") VALUES ($1)";
          values := Some [Str "x"; Num 1] |}
  /\
  parseTaggedTemplate
    ["UPDATE a SET n = "; "; INSERT INTO b "; EmptyString]
    [Escape EscapeParameter (Str "x");
     Escape EscapeKeysAndValuesWithExpiresIn
       (Obj [("id", Num 1); ("expiresIn", Num 60)])]
  = Ok {| text := "UPDATE a SET n = $1; INSERT INTO b (" ++ dquote ++ "id" ++
                  dquote ++ ", " ++ dquote ++ "expiresAt" ++ dquote ++ ", " ++
                  dquote ++ "expiresAtEpoch" ++ dquote ++
                  ") VALUES ($1, now() + $2::interval SECOND, " ++
                  "FLOOR(EXTRACT(EPOCH FROM NOW())) + $3)";
          values := Some [Str "x"; Num 1; Num 60; Num 60] |}.
Proof.
  split; reflexivity.
Qed.

(** C4. Whenever the assembler returns, the [values] field is absent exactly
    when the loop bound no value, and is otherwise the list the loop built,
    which is then not empty; it is never an empty list. *)
Theorem C4_values_absent_or_nonempty (strings : list string) (args : list Arg)
    (r : QueryConfig) :
  parseTaggedTemplate strings args = Ok r ->
  exists (txt : string) (vals : list Val),
    run strings args = Ok (txt, vals) /\
    text r = txt /\
    (vals = [] -> values r = None) /\
    (vals <> [] -> values r = Some vals) /\
    values r <> Some [].
Proof.
  unfold parseTaggedTemplate.
  destruct (run strings args) as [[txt vals]|e]; cbn [bind]; [|discriminate].
  intros H. injection H as <-. exists txt, vals. cbn [text values].
  destruct vals as [|v vals]; repeat split; try congruence.
Qed.

Lemma C4_values_absent_or_nonempty_witness :
  exists (txt : string) (vals : list Val),
    run ["SELECT "; EmptyString] [Escape EscapeParameter (Num 7)]
    = Ok (txt, vals) /\
    text {| text := "SELECT $1"; values := Some [Num 7] |} = txt /\
    (vals = [] -> values {| text := "SELECT $1"; values := Some [Num 7] |} = None) /\
    (vals <> [] ->
     values {| text := "SELECT $1"; values := Some [Num 7] |} = Some vals) /\
    values {| text := "SELECT $1"; values := Some [Num 7] |} <> Some [].
Proof.
  apply (@C4_values_absent_or_nonempty
           ["SELECT "; EmptyString] [Escape EscapeParameter (Num 7)]).
  reflexivity.
Defined.

(** C5. A raw string, number, boolean or null is appended to the text in its
    literal form and leaves [values] as it was; a template whose
    interpolations are all such primitives binds no parameter; and the
    example of the specification evaluates as stated. *)
Theorem C5_raw_primitive_is_literal :
  (forall (seg : string) (p : Primitive) (txt : string) (vals : list Val),
      step seg (Some (Raw (of_primitive p))) (txt, vals)
      = Ok ((txt ++ seg) ++ literal_text p, vals)) /\
  (forall (strings : list string) (prims : list Primitive),
      exists txt,
        parseTaggedTemplate strings (map (fun p => Raw (of_primitive p)) prims)
        = Ok {| text := txt; values := None |}) /\
  parseTaggedTemplate ["SELECT * FROM t WHERE id = "; EmptyString] [Raw (Num 5)]
  = Ok {| text := "SELECT * FROM t WHERE id = 5"; values := None |}.
Proof.
  split; [|split].
  - intros. apply step_primitive.
  - intros strings prims. unfold parseTaggedTemplate, run.
    destruct (forEach_primitives strings prims 0 EmptyString []) as [txt Htxt].
    rewrite Htxt. exists txt. reflexivity.
  - reflexivity.
Qed.

(** C6. A wrapper of any class whose payload is undefined adds nothing: the
    template assembles as it does with the two fragments around the slot
    joined and the interpolation removed, and as it does with a bare
    undefined in the slot. *)
Theorem C6_undefined_payload_is_omitted (cls : EscapeClass)
    (s1 : list string) (a b : string) (s2 : list string) (a1 a2 : list Arg) :
  List.length a1 = List.length s1 ->
  parseTaggedTemplate (s1 +++ a :: b :: s2) (a1 +++ Escape cls Undefined :: a2)
  = parseTaggedTemplate (s1 +++ (a ++ b) :: s2) (a1 +++ a2)
  /\
  parseTaggedTemplate (s1 +++ a :: b :: s2) (a1 +++ Escape cls Undefined :: a2)
  = parseTaggedTemplate (s1 +++ a :: b :: s2) (a1 +++ Raw Undefined :: a2).
Proof.
  intros Hlen. unfold parseTaggedTemplate, run. split.
  - now rewrite forEach_skip_slot.
  - now rewrite forEach_undefined_slot.
Qed.

Lemma C6_undefined_payload_is_omitted_witness :
  parseTaggedTemplate
    (["SELECT "] +++ " FROM t" :: " WHERE id = 1" :: [])
    ([Escape EscapeIdentifier (Str "id")] +++
     Escape EscapeAndDictionary Undefined :: [])
  = parseTaggedTemplate
      (["SELECT "] +++ (" FROM t" ++ " WHERE id = 1") :: [])
      ([Escape EscapeIdentifier (Str "id")] +++ [])
  /\
  parseTaggedTemplate
    (["SELECT "] +++ " FROM t" :: " WHERE id = 1" :: [])
    ([Escape EscapeIdentifier (Str "id")] +++
     Escape EscapeAndDictionary Undefined :: [])
  = parseTaggedTemplate
      (["SELECT "] +++ " FROM t" :: " WHERE id = 1" :: [])
      ([Escape EscapeIdentifier (Str "id")] +++ Raw Undefined :: []).
Proof.
  apply (@C6_undefined_payload_is_omitted EscapeAndDictionary
           ["SELECT "] " FROM t" " WHERE id = 1" []
           [Escape EscapeIdentifier (Str "id")] []).
  reflexivity.
Defined.

(** C9. A well-shaped template (one fragment more than interpolations) that
    holds a [keysAndValues] wrapper of the empty array is never assembled:
    the call throws and no query config is returned. *)
Theorem C9_empty_keysAndValues_throws (strings : list string)
    (args : list Arg) :
  List.length strings = S (List.length args) ->
  In (Escape EscapeKeysAndValues (Arr [])) args ->
  exists e, parseTaggedTemplate strings args = Throw e.
Proof.
  intros Hshape Hin.
  destruct (In_nth_error _ _ Hin) as [i Hi].
  assert (Hlt : i < List.length args).
  { apply nth_error_Some. rewrite Hi. discriminate. }
  destruct (@forEach_empty_keysAndValues strings 0 i args (EmptyString, []))
    as [e He]; [lia | exact Hi |].
  exists e. unfold parseTaggedTemplate, run. rewrite He. reflexivity.
Qed.

Lemma C9_empty_keysAndValues_throws_witness :
  exists e,
    parseTaggedTemplate ["INSERT INTO t "; EmptyString]
                        [Escape EscapeKeysAndValues (Arr [])]
    = Throw e.
Proof.
  apply (@C9_empty_keysAndValues_throws
           ["INSERT INTO t "; EmptyString]
           [Escape EscapeKeysAndValues (Arr [])]).
  - reflexivity.
  - left. reflexivity.
Defined.

(** C10. An [andDictionary] wrapper writes an AND clause and binds a value
    for exactly the keys whose value is not undefined, the others leaving no
    trace; a [dictionary] wrapper writes a clause and binds the value of
    every key, undefined included. *)
Theorem C10_undefined_entries_asymmetry :
  (forall (dictionary : Val) (vals : list Val),
      render (Escape EscapeAndDictionary dictionary) vals
      = Ok (join EmptyString
              (mapi_from (S (List.length vals)) and_clause
                         (defined_keys dictionary)),
            vals +++ map (get_own dictionary) (defined_keys dictionary))) /\
  (forall (dictionary : Val) (key : string),
      In key (defined_keys dictionary) <->
      In key (own_keys dictionary) /\ get_own dictionary key <> Undefined) /\
  (forall (dictionary : Val) (vals : list Val),
      render (Escape EscapeDictionary dictionary) vals
      = Ok (join ", "
              (mapi_from (S (List.length vals)) set_clause
                         (own_keys dictionary)),
            vals +++ map (get_own dictionary) (own_keys dictionary))) /\
  parseTaggedTemplate ["WHERE 1=1"; EmptyString]
    [Escape EscapeAndDictionary (Obj [("a", Undefined); ("b", Num 2)])]
  = Ok {| text := "WHERE 1=1 AND " ++ dquote ++ "b" ++ dquote ++ "=$1";
          values := Some [Num 2] |} /\
  parseTaggedTemplate ["SET "; EmptyString]
    [Escape EscapeDictionary (Obj [("a", Undefined); ("b", Num 2)])]
  = Ok {| text := "SET " ++ dquote ++ "a" ++ dquote ++ "=$1, " ++
                  dquote ++ "b" ++ dquote ++ "=$2";
          values := Some [Undefined; Num 2] |}.
Proof.
  split; [|split; [|split; [|split]]].
  - intros dictionary vals. unfold render.
    rewrite andDictionary_loop_spec. reflexivity.
  - intros dictionary key. unfold defined_keys. rewrite filter_In.
    destruct (get_own dictionary key); cbn [is_undefined negb];
      intuition congruence.
  - intros dictionary vals. unfold render.
    rewrite dictionary_loop_spec. reflexivity.
  - reflexivity.
  - reflexivity.
Qed.

End AssemblerFacts.

(** * Properties of the classifier *)

Module ClassifierFacts.

Import Regex Classifier Notions MoreNotions.

Lemma any_char_snoc (p : ascii -> bool) (s : string) (c : ascii) :
  any_char p (snoc s c) = any_char p s || p c.
Proof.
  unfold snoc. induction s as [|d s IH]; simpl.
  - now rewrite orb_false_r.
  - rewrite IH. now rewrite orb_assoc.
Qed.

(** No token of a split holds a separator. *)
Lemma split_acc_no_sep (is_sep : ascii -> bool) (s : string) :
  forall cur,
    any_char is_sep cur = false ->
    Forall (fun t => any_char is_sep t = false) (split_acc is_sep cur s).
Proof.
  induction s as [|c rest IH]; intros cur Hcur; cbn [split_acc].
  - constructor; [exact Hcur | constructor].
  - destruct (is_sep c) eqn:Hc.
    + constructor; [exact Hcur | apply IH; reflexivity].
    + apply IH. rewrite any_char_snoc, Hcur, Hc. reflexivity.
Qed.

(** Two separator tests that agree on the characters of [s] split it alike. *)
Lemma split_acc_ext (p q : ascii -> bool) (s : string) :
  forall cur,
    (forall c, In c (list_ascii_of_string s) -> p c = q c) ->
    split_acc p cur s = split_acc q cur s.
Proof.
  induction s as [|c rest IH]; intros cur Hagree; cbn [split_acc].
  - reflexivity.
  - rewrite <- (Hagree c) by (left; reflexivity).
    destruct (p c); [f_equal|]; apply IH; intros d Hd; apply Hagree;
      right; exact Hd.
Qed.

Lemma snoc_append (cur : string) (c : ascii) (s : string) :
  snoc cur c ++ s = cur ++ String c s.
Proof.
  unfold snoc. induction cur as [|d cur IH]; simpl; [reflexivity|].
  now rewrite IH.
Qed.

(** A word without separator, followed by a separator, is one token. *)
Lemma split_acc_word (is_sep : ascii -> bool) (sep : ascii) (word : string) :
  forall (cur rest : string),
    is_sep sep = true ->
    any_char is_sep word = false ->
    split_acc is_sep cur (word ++ String sep rest)
    = (cur ++ word) :: split_acc is_sep EmptyString rest.
Proof.
  induction word as [|c word IH]; intros cur rest Hsep Hword.
  - cbn [append split_acc]. rewrite Hsep.
    now rewrite AssemblerFacts.append_empty_r.
  - cbn [any_char] in Hword. apply orb_false_iff in Hword as [Hc Hword].
    cbn [append split_acc]. rewrite Hc. rewrite IH by assumption.
    now rewrite snoc_append.
Qed.

Lemma hd_error_filter_In {A} (f : A -> bool) (l : list A) (x : A) :
  hd_error (filter f l) = Some x -> In x l /\ f x = true.
Proof.
  intros H. apply filter_In.
  destruct (filter f l) as [|y ys]; [discriminate|].
  injection H as ->. left. reflexivity.
Qed.

Lemma strip_prefix_Some (p : string) :
  forall s r, strip_prefix p s = Some r -> s = p ++ r.
Proof.
  induction p as [|a p IH]; intros s r H; cbn [strip_prefix] in H.
  - now injection H as ->.
  - destruct s as [|b s]; [discriminate|].
    destruct (Ascii.eqb a b) eqn:Hab; [|discriminate].
    apply Ascii.eqb_eq in Hab. subst b. cbn [append]. f_equal. now apply IH.
Qed.


(** Only the two reads of [errorParameters[0]] and [JSON.stringify] can
    throw. *)
Lemma generateDbErrorMessage_returns_other_rules (e : DatabaseErrorInput)
    (json : option string) :
  exec insertFkRegex (message e) = None ->
  exec duplicateKeyRegex (message e) = None ->
  args_json e = Ok json ->
  exists r, generateDbErrorMessage e = Ok r.
Proof.
  intros H4 H5 Hargs. unfold generateDbErrorMessage. rewrite H4, H5.
  change (match args e with
          | Some a => JSON_stringify a
          | None => Ok None
          end) with (args_json e).
  rewrite Hargs. cbn [bind].
  repeat match goal with
         | |- exists r, match ?x with _ => _ end = Ok r => destruct x
         end;
    eexists; reflexivity.
Qed.

(** The insert foreign-key rule without [parameters]. *)
Lemma insertFk_without_parameters_throws (e : DatabaseErrorInput)
    (insertFkResult : list string) :
  parameters e = None ->
  exec insertFkRegex (message e) = Some insertFkResult ->
  exists err, generateDbErrorMessage e = Throw err.
Proof.
  intros Hps Hfk. unfold generateDbErrorMessage. rewrite Hfk, Hps.
  assert (Hprefix : exists t, message e = "insert or update on table " ++ t).
  { unfold exec, insertFkRegex, whole in Hfk.
    cbn [anchored_start anchored_end pieces match_pieces] in Hfk.
    destruct (strip_prefix _ (message e)) as [t|] eqn:Ht; [|discriminate].
    apply strip_prefix_Some in Ht. rewrite Ht.
    rewrite AssemblerFacts.append_assoc. eexists. reflexivity. }
  destruct Hprefix as [t Ht]. rewrite Ht.
  eexists. reflexivity.
Qed.

(** The duplicate-key rule without [parameters]. *)
Lemma duplicateKey_without_parameters_throws (e : DatabaseErrorInput)
    (duplicateKeyResult : list string) :
  parameters e = None ->
  exec duplicateKeyRegex (message e) = Some duplicateKeyResult ->
  exists err, generateDbErrorMessage e = Throw err.
Proof.
  intros Hps Hdup. unfold generateDbErrorMessage. rewrite Hdup, Hps.
  assert (Hprefix :
    exists t, message e = "duplicate key value violates unique constraint " ++ t).
  { unfold exec, duplicateKeyRegex, whole in Hdup.
    cbn [anchored_start anchored_end pieces match_pieces] in Hdup.
    destruct (strip_prefix _ (message e)) as [t|] eqn:Ht; [|discriminate].
    apply strip_prefix_Some in Ht. rewrite Ht.
    rewrite AssemblerFacts.append_assoc. eexists. reflexivity. }
  destruct Hprefix as [t Ht]. rewrite Ht.
  eexists. reflexivity.
Qed.

(** ** The claims on the classifier *)

(** C2 (fails on the code). With [parameters] absent, an error that matches
    the insert foreign-key rule or the duplicate-key rule makes the
    classifier throw, at [errorParameters[0]], instead of returning a
    result. *)
Theorem C2_absent_parameters_throw :
  generateDbErrorMessage
    {| message := insertFk_message; detail := None; table := Some "books";
       query := Some "INSERT INTO books (authorId) VALUES (5)";
       parameters := None; args := None |}
  = Throw (TypeError "Cannot read properties of undefined (reading '0')")
  /\
  generateDbErrorMessage
    {| message := duplicateKey_message; detail := None; table := Some "users";
       query := Some "INSERT INTO users (email) VALUES ('a@b.com')";
       parameters := None; args := None |}
  = Throw (TypeError "Cannot read properties of undefined (reading '0')").
Proof.
  split; reflexivity.
Qed.

(** C3 (fails on the code). The comment of [getQueryMethod] says the
    filter is there for a new line at the beginning of the text, but the
    text is split on the space character only: a line feed attached to the
    verb stays in the extracted method, where splitting on white space, as
    the claim has it, gives the bare verb. *)
Lemma C3_newline_stays_attached :
  getQueryMethod (String LF "SELECT 1") = Some (String LF "SELECT") /\
  spec_getQueryMethod (String LF "SELECT 1") = Some "SELECT".
Proof.
  split; reflexivity.
Qed.

(** What the split on the space character does give: the method holds no
    space, and it is the token of the white-space split whenever the only
    white space of the text is the space. *)
Lemma getQueryMethod_token :
  (forall (q m : string),
      getQueryMethod q = Some m ->
      1 < String.length m /\ any_char (Ascii.eqb space) m = false) /\
  (forall (q : string),
      (forall c, In c (list_ascii_of_string q) ->
                 is_whitespace c = true -> c = space) ->
      getQueryMethod q = spec_getQueryMethod q).
Proof.
  split.
  - intros q m H. unfold getQueryMethod in H.
    apply hd_error_filter_In in H as [Hin Hlen].
    split.
    + now apply Nat.ltb_lt in Hlen.
    + pose proof (@split_acc_no_sep (Ascii.eqb space) q EmptyString eq_refl)
        as Hall.
      rewrite Forall_forall in Hall. now apply Hall.
  - intros q Hq. unfold getQueryMethod, spec_getQueryMethod, split.
    f_equal. f_equal. apply split_acc_ext. intros c Hc.
    destruct (Ascii.eqb space c) eqn:Heq.
    + apply Ascii.eqb_eq in Heq. subst c. reflexivity.
    + destruct (is_whitespace c) eqn:Hw; [|reflexivity].
      rewrite (Hq c Hc Hw) in Heq. rewrite Ascii.eqb_refl in Heq.
      discriminate.
Qed.

(** C8. An error whose message matches the value-too-long pattern while its
    query text does not match the secondary pattern gets the complete
    fallback result: the generic message and both flags false. *)
Theorem C8_tooLong_falls_back (e : DatabaseErrorInput) (tooLongResult : list string) :
  exec tooLongRegex (message e) = Some tooLongResult ->
  exec analyzeQueryRegex (or_empty (query e)) = None ->
  generateDbErrorMessage e = Ok (default_results e) /\
  res_message (default_results e)
  = "Unrecognized Database Error: " ++ message e ++ ". Detail: " ++
    show (detail e) /\
  isTimeoutError (default_results e) = false /\
  isTooManyConnectionsError (default_results e) = false.
Proof.
  intros Hlong Hquery. split; [|repeat split].
  unfold generateDbErrorMessage. rewrite Hlong, Hquery.
  assert (Hprefix : exists t, message e = "value too long for type " ++ t).
  { unfold exec, tooLongRegex, whole in Hlong.
    cbn [anchored_start anchored_end pieces match_pieces] in Hlong.
    destruct (strip_prefix "value too long for type " (message e)) as [t|] eqn:Ht;
      [|discriminate].
    exists t. now apply strip_prefix_Some. }
  destruct Hprefix as [t Ht]. rewrite Ht.
  reflexivity.
Qed.

Lemma C8_tooLong_falls_back_witness :
  generateDbErrorMessage tooLong_input = Ok (default_results tooLong_input) /\
  res_message (default_results tooLong_input)
  = "Unrecognized Database Error: " ++ message tooLong_input ++ ". Detail: " ++
    show (detail tooLong_input) /\
  isTimeoutError (default_results tooLong_input) = false /\
  isTooManyConnectionsError (default_results tooLong_input) = false.
Proof.
  apply (@C8_tooLong_falls_back tooLong_input ["character varying(5)"]).
  - reflexivity.
  - reflexivity.
Defined.

End ClassifierFacts.

(** * Properties of the error wrapper *)

Module ErrorsFacts.

Import Classifier Errors Notions.

(** C7. When the constructor classifies the error it was given, the status
    code of the new [DBError] is 429 exactly when the classifier set
    [isTimeoutError] or [isTooManyConnectionsError], and 400 otherwise. *)
Theorem C7_status_follows_flags (isDatabaseError : bool)
    (e : DatabaseErrorInput) (r : Results) :
  is_classified isDatabaseError e = true ->
  generateDbErrorMessage e = Ok r ->
  exists d,
    new_DBError (OfError isDatabaseError e) = Ok d /\
    db_message d = res_message r /\
    (statusCode d = 429 <->
     isTimeoutError r = true \/ isTooManyConnectionsError r = true) /\
    (statusCode d = 400 <->
     isTimeoutError r = false /\ isTooManyConnectionsError r = false).
Proof.
  intros Hcls Hgen. unfold new_DBError. rewrite Hcls, Hgen. cbn [bind].
  eexists. split; [reflexivity|]. cbn [db_message statusCode].
  split; [reflexivity|].
  destruct (isTimeoutError r), (isTooManyConnectionsError r); cbn [orb];
    split; split; intros H; try reflexivity; try discriminate;
    try (destruct H as [H|H]; discriminate);
    try (destruct H; discriminate); auto.
Qed.

Lemma C7_status_follows_flags_witness :
  exists d,
    new_DBError (OfError false timeout_input) = Ok d /\
    db_message d = res_message timeout_results /\
    (statusCode d = 429 <->
     isTimeoutError timeout_results = true \/
     isTooManyConnectionsError timeout_results = true) /\
    (statusCode d = 400 <->
     isTimeoutError timeout_results = false /\
     isTooManyConnectionsError timeout_results = false).
Proof.
  apply (@C7_status_follows_flags false timeout_input timeout_results).
  - reflexivity.
  - reflexivity.
Defined.

End ErrorsFacts.

(** * Further properties of the assembler *)

Module AssemblerMore.

Import Assembler Notions MoreNotions AssemblerFacts.

Lemma mapi_from_placeholders {A} (l : list A) :
  forall n, mapi_from n (fun i _ => placeholder i) l
            = placeholders n (List.length l).
Proof.
  unfold placeholders.
  induction l as [|x l IH]; intros n; cbn [mapi_from List.length seq map].
  - reflexivity.
  - now rewrite IH.
Qed.

Lemma render_grows (arg : Arg) (vals : list Val) (rendered : string)
    (vals' : list Val) :
  render arg vals = Ok (rendered, vals') ->
  exists added, vals' = vals +++ added.
Proof.
  destruct arg as [v|cls value]; [|destruct cls]; unfold render.
  - destruct (typeof_object v);
      [destruct (JSON_stringify v); cbn [bind]; [|discriminate]|];
      intros H; injection H as _ <-; exists []; now rewrite app_nil_r.
  - destruct (JSON_stringify _); cbn [bind]; [|discriminate].
    intros H; injection H as _ <-. exists []; now rewrite app_nil_r.
  - rewrite andDictionary_loop_spec. intros H; injection H as _ <-.
    eexists; reflexivity.
  - destruct (iterate value) as [items|e]; cbn [bind]; [|discriminate].
    rewrite arrayParameters_loop_spec. intros H; injection H as _ <-.
    eexists; reflexivity.
  - rewrite dictionary_loop_spec. intros H; injection H as _ <-.
    eexists; reflexivity.
  - destruct (mapM escapeIdentifier _) as [escaped|e]; cbn [bind];
      [|discriminate].
    intros H; injection H as _ <-. exists []; now rewrite app_nil_r.
  - intros H; injection H as _ <-. eexists; reflexivity.
  - destruct (Object_keys _) as [keys|e]; cbn [bind]; [|discriminate].
    destruct (keysAndValues_loop keys _ [] []) as [[rowValues groups]|e];
      cbn [bind]; [|discriminate].
    intros H; injection H as _ <-. eexists; reflexivity.
  - destruct (truthy (if truthy _ then _ else Undefined));
      intros H; injection H as _ <-; eexists; reflexivity.
Qed.

Lemma step_grows (seg : string) (arg : option Arg) (txt : string)
    (vals : list Val) (txt' : string) (vals' : list Val) :
  step seg arg (txt, vals) = Ok (txt', vals') ->
  exists written added, txt' = txt ++ written /\ vals' = vals +++ added.
Proof.
  assert (Hskip : forall t v, @Ok State (txt ++ seg, vals) = Ok (t, v) ->
            exists written added, t = txt ++ written /\ v = vals +++ added).
  { intros t v H. injection H as <- <-. exists seg, [].
    now rewrite app_nil_r. }
  assert (Hrender : forall a t v,
            (r <- render a vals ;;
             let '(rendered, w) := r in Ok ((txt ++ seg) ++ rendered, w))
            = Ok (t, v) ->
            exists written added, t = txt ++ written /\ v = vals +++ added).
  { intros a t v H.
    destruct (render a vals) as [[rendered w]|e] eqn:Hr; cbn [bind] in H;
      [|discriminate].
    injection H as <- <-.
    destruct (render_grows _ _ Hr) as [added ->].
    exists (seg ++ rendered), added. now rewrite append_assoc. }
  unfold step.
  destruct arg as [[v|cls value]|].
  - destruct v; try apply Hskip; apply Hrender.
  - destruct value; try apply Hskip; apply Hrender.
  - apply Hskip.
Qed.

(** X1. The callbacks only append: whatever the interpolations, the text and
    the values a run of the loop ends with extend the ones it started from. *)
Theorem forEach_only_appends (strings : list string) :
  forall (index : nat) (args : list Arg) (txt : string) (vals : list Val)
         (txt' : string) (vals' : list Val),
    forEach strings index args (txt, vals) = Ok (txt', vals') ->
    exists written added, txt' = txt ++ written /\ vals' = vals +++ added.
Proof.
  induction strings as [|seg rest IH]; intros index args txt vals txt' vals' H;
    cbn [forEach] in H.
  - injection H as <- <-. exists EmptyString, [].
    now rewrite append_empty_r, app_nil_r.
  - destruct (step seg (nth_error args index) (txt, vals)) as [[t1 v1]|e] eqn:Hs;
      cbn [bind] in H; [|discriminate].
    destruct (step_grows _ _ _ _ Hs) as (w1 & a1 & -> & ->).
    destruct (IH _ _ _ _ _ _ H) as (w2 & a2 & -> & ->).
    exists (w1 ++ w2), (a1 +++ a2).
    now rewrite append_assoc, app_assoc.
Qed.

Lemma forEach_only_appends_witness :
  exists written added,
    "SELECT $1 FROM t WHERE id = $2" = "SELECT $1" ++ written /\
    [Num 7; Num 8] = [Num 7] +++ added.
Proof.
  apply (@forEach_only_appends [" FROM t WHERE id = "; EmptyString] 0
           [Escape EscapeParameter (Num 8)] "SELECT $1" [Num 7]).
  reflexivity.
Defined.

Lemma step_raw_keeps_values (seg : string) (v : Val) (txt : string)
    (vals : list Val) (txt' : string) (vals' : list Val) :
  step seg (Some (Raw v)) (txt, vals) = Ok (txt', vals') -> vals' = vals.
Proof.
  destruct v; cbn [step render typeof_object bind];
    try (intros H; now injection H as _ <-);
    (destruct (JSON_stringify _); cbn [bind]; [|discriminate];
     intros H; now injection H as _ <-).
Qed.

Lemma step_raw (seg : string) (v : Val) (txt : string) (vals : list Val) :
  serialisable v ->
  exists txt', step seg (Some (Raw v)) (txt, vals) = Ok (txt', vals).
Proof.
  unfold serialisable. intros Hv.
  destruct v; cbn [step render typeof_object bind];
    try (eexists; reflexivity);
    (destruct (Hv eq_refl) as [json Hjson]; rewrite Hjson; cbn [bind];
     eexists; reflexivity).
Qed.

Lemma forEach_raw_keeps_values (strings : list string) (vs : list Val) :
  forall (index : nat) (txt : string) (vals : list Val) (txt' : string)
         (vals' : list Val),
    forEach strings index (map Raw vs) (txt, vals) = Ok (txt', vals') ->
    vals' = vals.
Proof.
  induction strings as [|seg rest IH]; intros index txt vals txt' vals' H;
    cbn [forEach] in H.
  - now injection H as _ <-.
  - rewrite nth_error_map in H.
    destruct (nth_error vs index) as [v|]; cbn [option_map] in H.
    + destruct (step seg (Some (Raw v)) (txt, vals)) as [[t1 v1]|e] eqn:Hs;
        cbn [bind] in H; [|discriminate].
      apply step_raw_keeps_values in Hs. subst v1. now apply IH in H.
    + cbn [step bind] in H. now apply IH in H.
Qed.

Lemma forEach_raw (strings : list string) (vs : list Val) :
  Forall serialisable vs ->
  forall (index : nat) (txt : string) (vals : list Val),
  exists txt', forEach strings index (map Raw vs) (txt, vals) = Ok (txt', vals).
Proof.
  intros Hvs.
  induction strings as [|seg rest IH]; intros index txt vals; cbn [forEach].
  - exists txt. reflexivity.
  - rewrite nth_error_map.
    destruct (nth_error vs index) as [v|] eqn:Hv; cbn [option_map].
    + assert (Hser : serialisable v).
      { rewrite Forall_forall in Hvs. apply Hvs.
        now apply nth_error_In in Hv. }
      destruct (step_raw seg txt vals Hser) as [t Ht]. rewrite Ht. cbn [bind].
      apply IH.
    + cbn [step bind]. apply IH.
Qed.

(** X2. A template whose interpolations are all plain values binds no
    parameter: whenever it is assembled, [values] is absent. It is
    assembled whenever [JSON.stringify] accepts every interpolated array
    and object, and throws nowhere else. *)
Theorem plain_values_are_never_bound (strings : list string) (vs : list Val) :
  (forall r,
      parseTaggedTemplate strings (map Raw vs) = Ok r -> values r = None) /\
  (Forall serialisable vs ->
   exists txt,
     parseTaggedTemplate strings (map Raw vs)
     = Ok {| text := txt; values := None |}).
Proof.
  unfold parseTaggedTemplate, run. split.
  - intros r.
    destruct (forEach strings 0 (map Raw vs) (EmptyString, []))
      as [[txt vals]|e] eqn:Hrun; cbn [bind]; [|discriminate].
    apply forEach_raw_keeps_values in Hrun. subst vals.
    intros H. now injection H as <-.
  - intros Hvs.
    destruct (forEach_raw strings Hvs 0 EmptyString []) as [txt Htxt].
    rewrite Htxt. exists txt. reflexivity.
Qed.

Lemma plain_values_are_never_bound_witness :
  exists txt,
    parseTaggedTemplate ["SELECT "; " AS a, "; " AS b"]
      (map Raw [Arr [Num 1; Undefined]; BigInt 7])
    = Ok {| text := txt; values := None |}.
Proof.
  destruct (plain_values_are_never_bound ["SELECT "; " AS a, "; " AS b"]
              [Arr [Num 1; Undefined]; BigInt 7]) as [_ H].
  apply H. constructor; [intros _; eexists; reflexivity|].
  constructor; [intros Hobject; discriminate Hobject|]. constructor.
Defined.

Lemma forEach_no_args (strings : list string) :
  forall (index : nat) (txt : string) (vals : list Val),
    forEach strings index [] (txt, vals)
    = Ok (txt ++ interleave strings [], vals).
Proof.
  induction strings as [|seg rest IH]; intros index txt vals;
    cbn [forEach interleave].
  - now rewrite append_empty_r.
  - replace (nth_error (@nil Arg) index) with (@None Arg)
      by (destruct index; reflexivity).
    cbn [step bind]. rewrite IH. now rewrite append_assoc.
Qed.

Lemma step_parameter (seg : string) (v : Val) (txt : string)
    (vals : list Val) :
  v <> Undefined ->
  step seg (Some (Escape EscapeParameter v)) (txt, vals)
  = Ok ((txt ++ seg) ++ placeholder (S (List.length vals)), vals +++ [v]).
Proof.
  intros Hv. destruct v; [congruence| ..];
    cbn [step bind]; rewrite render_parameter; reflexivity.
Qed.

Lemma forEach_parameters (strings : list string) :
  forall (vs : list Val) (txt : string) (vals : list Val),
    Forall (fun v => v <> Undefined) vs ->
    List.length vs <= List.length strings ->
    forEach strings 0 (map (Escape EscapeParameter) vs) (txt, vals)
    = Ok (txt ++
          interleave strings (placeholders (S (List.length vals)) (List.length vs)),
          vals +++ vs).
Proof.
  induction strings as [|seg rest IH]; intros vs txt vals Hdef Hlen.
  - destruct vs as [|v vs]; [|simpl in Hlen; lia].
    cbn. now rewrite append_empty_r, app_nil_r.
  - destruct vs as [|v vs].
    + cbn [map List.length placeholders seq]. rewrite forEach_no_args.
      now rewrite app_nil_r.
    + inversion Hdef as [|? ? Hv Hrest]; subst.
      cbn [map forEach nth_error].
      rewrite step_parameter by exact Hv. cbn [bind].
      rewrite forEach_shift.
      rewrite IH by (try exact Hrest; simpl in Hlen; lia).
      rewrite length_app. cbn [List.length].
      replace (List.length vals + 1) with (S (List.length vals)) by lia.
      unfold placeholders. cbn [seq map interleave].
      rewrite <- app_assoc. cbn [List.app].
      now rewrite !append_assoc.
Qed.

(** X3. A well-shaped template whose interpolations are all [parameter]
    wrappers of defined values is the fragments with [$1], [$2], ... written
    between them in order, and its values are the wrapped values in the same
    order (absent when there is none). *)
Theorem parameters_are_numbered_in_order (strings : list string)
    (vs : list Val) :
  Forall (fun v => v <> Undefined) vs ->
  List.length strings = S (List.length vs) ->
  parseTaggedTemplate strings (map (Escape EscapeParameter) vs)
  = Ok {| text := interleave strings (placeholders 1 (List.length vs));
          values := match vs with [] => None | _ :: _ => Some vs end |}.
Proof.
  intros Hdef Hshape. unfold parseTaggedTemplate, run.
  rewrite forEach_parameters by (try exact Hdef; lia).
  cbn [bind List.length List.app append]. reflexivity.
Qed.

Lemma parameters_are_numbered_in_order_witness :
  parseTaggedTemplate ["SELECT "; ", "; " FROM t"]
    (map (Escape EscapeParameter) [Str "a"; Null])
  = Ok {| text := interleave ["SELECT "; ", "; " FROM t"]
                    (placeholders 1 (List.length [Str "a"; Null]));
          values := Some [Str "a"; Null] |}.
Proof.
  apply (@parameters_are_numbered_in_order
           ["SELECT "; ", "; " FROM t"] [Str "a"; Null]).
  - repeat constructor; discriminate.
  - reflexivity.
Defined.

(** X4. An [arrayParameters] wrapper of an array binds every element, in
    order, after the values already bound, and numbers its placeholders
    from the first free index on; a payload that is null, a boolean, a
    number or a plain object makes the assembler throw. *)
Theorem arrayParameters_numbering :
  (forall (items vals : list Val),
      render (Escape EscapeArrayParameters (Arr items)) vals
      = Ok ("ARRAY[" ++
            join ", " (placeholders (S (List.length vals)) (List.length items)) ++
            "]",
            vals +++ items)) /\
  (forall (vals : list Val),
      (exists e, render (Escape EscapeArrayParameters Null) vals = Throw e) /\
      (forall b, exists e,
            render (Escape EscapeArrayParameters (Bool b)) vals = Throw e) /\
      (forall n, exists e,
            render (Escape EscapeArrayParameters (Num n)) vals = Throw e) /\
      (forall props, exists e,
            render (Escape EscapeArrayParameters (Obj props)) vals = Throw e)).
Proof.
  split.
  - intros items vals. unfold render. cbn [iterate bind].
    rewrite arrayParameters_loop_spec. cbn [List.app].
    now rewrite mapi_from_placeholders.
  - intros vals. repeat split; intros; eexists; reflexivity.
Qed.

Lemma mapM_get_prop (row : Val) (keys : list string) :
  row <> Undefined -> row <> Null ->
  mapM (get_prop row) keys = Ok (map (get_own row) keys).
Proof.
  intros Hu Hn. induction keys as [|key keys IH]; cbn [mapM map].
  - reflexivity.
  - rewrite IH. destruct row; try congruence; reflexivity.
Qed.

Lemma mapi_from_offset {A} (c : nat) (l : list A) :
  forall i, mapi_from i (fun i _ => placeholder (c + i + 1)) l
            = placeholders (c + i + 1) (List.length l).
Proof.
  unfold placeholders.
  induction l as [|x l IH]; intros i; cbn [mapi_from List.length seq map].
  - reflexivity.
  - rewrite IH. do 3 f_equal. lia.
Qed.

Lemma keysAndValues_loop_spec (keys : list string) (rows : list Val) :
  forall (rowValues : list Val) (groups : list (list string)),
    Forall (fun row => row <> Undefined /\ row <> Null) rows ->
    keysAndValues_loop keys rows rowValues groups
    = Ok (rowValues +++ flat_map (fun row => map (get_own row) keys) rows,
          groups +++
          map (fun j => placeholders (j * List.length keys + 1) (List.length keys))
              (seq (List.length groups) (List.length rows))).
Proof.
  induction rows as [|row rows IH]; intros rowValues groups Hrows.
  - cbn. now rewrite !app_nil_r.
  - inversion Hrows as [|? ? [Hu Hn] Hrest]; subst.
    cbn [keysAndValues_loop]. rewrite mapM_get_prop by assumption.
    cbn [bind]. rewrite IH by exact Hrest.
    rewrite length_push. unfold push, mapi.
    rewrite mapi_from_offset. rewrite Nat.add_0_r.
    cbn [flat_map List.length seq map]. rewrite <- !app_assoc. reflexivity.
Qed.

(** X5. A [keysAndValues] wrapper of an array of rows takes its columns
    from the first row only: when every row owns every key of the first
    row, each row binds exactly the values it holds under those keys, in
    the first row's order, the keys only it has being ignored, and row [j]
    is written as the group of placeholders [j * width + 1] to
    [(j + 1) * width]. *)
Theorem keysAndValues_rows (first : Val) (others : list Val)
    (vals : list Val) :
  Forall (fun row => row <> Undefined /\ row <> Null) (first :: others) ->
  Forall (fun row => incl (own_keys first) (own_keys row)) others ->
  render (Escape EscapeKeysAndValues (Arr (first :: others))) vals
  = Ok ("(" ++ join "," (map escapeIdentifier_str (own_keys first)) ++
        ") VALUES " ++
        join ","
          (map (row_group (List.length (own_keys first)))
               (seq 0 (S (List.length others)))),
        vals +++
        flat_map (fun row => map (get_own row) (own_keys first))
                 (first :: others)).
Proof.
  intros Hrows _. unfold render. cbn [nth].
  assert (Hkeys : Object_keys first = Ok (own_keys first)).
  { inversion Hrows as [|? ? [Hu Hn] _]; subst.
    destruct first; try congruence; reflexivity. }
  rewrite Hkeys. cbn [bind].
  rewrite keysAndValues_loop_spec by exact Hrows. cbn [bind List.app].
  rewrite map_map. reflexivity.
Qed.

Lemma keysAndValues_rows_witness :
  render
    (Escape EscapeKeysAndValues
       (Arr (Obj [("id", Num 1); ("name", Str "x")] ::
             [Obj [("name", Str "y"); ("age", Num 3); ("id", Num 2)]])))
    [Str "bound"]
  = Ok ("(" ++
        join ","
          (map escapeIdentifier_str
               (own_keys (Obj [("id", Num 1); ("name", Str "x")]))) ++
        ") VALUES " ++
        join ","
          (map (row_group
                  (List.length (own_keys (Obj [("id", Num 1); ("name", Str "x")]))))
               (seq 0
                  (S (List.length
                        [Obj [("name", Str "y"); ("age", Num 3); ("id", Num 2)]])))),
        [Str "bound"] +++
        flat_map
          (fun row =>
             map (get_own row) (own_keys (Obj [("id", Num 1); ("name", Str "x")])))
          (Obj [("id", Num 1); ("name", Str "x")] ::
           [Obj [("name", Str "y"); ("age", Num 3); ("id", Num 2)]])).
Proof.
  apply (@keysAndValues_rows (Obj [("id", Num 1); ("name", Str "x")])
           [Obj [("name", Str "y"); ("age", Num 3); ("id", Num 2)]]
           [Str "bound"]).
  - repeat constructor; discriminate.
  - constructor; [|constructor].
    intros key [<- | [<- | []]]; cbn; auto.
Defined.

Lemma mapM_escapeIdentifier (names : list string) :
  mapM escapeIdentifier (map Str names) = Ok (map escapeIdentifier_str names).
Proof.
  induction names as [|name names IH]; cbn [map mapM escapeIdentifier bind].
  - reflexivity.
  - now rewrite IH.
Qed.

(** X19. An [identifier] wrapper never binds a value: a list of names is
    written into the text, each name quoted, joined by a comma and a space,
    and a single name is handled as the list of that name; [values] is left
    as it was. *)
Theorem identifier_binds_nothing :
  (forall (names : list string) (vals : list Val),
      render (Escape EscapeIdentifier (Arr (map Str names))) vals
      = Ok (join ", " (map escapeIdentifier_str names), vals)) /\
  (forall (name : string) (vals : list Val),
      render (Escape EscapeIdentifier (Str name)) vals
      = render (Escape EscapeIdentifier (Arr [Str name])) vals) /\
  (forall (value : Val) (vals : list Val) (rendered : string)
          (vals' : list Val),
      render (Escape EscapeIdentifier value) vals = Ok (rendered, vals') ->
      vals' = vals).
Proof.
  split; [|split].
  - intros names vals. unfold render. now rewrite mapM_escapeIdentifier.
  - reflexivity.
  - intros value vals rendered vals'. unfold render.
    destruct (mapM escapeIdentifier _); cbn [bind]; [|discriminate].
    intros H. now injection H as _ <-.
Qed.

Lemma delete_removes (key : string) (props : list (string * Val)) :
  ~ In key (map fst (delete key props)).
Proof.
  unfold delete. intros Hin. apply in_map_iff in Hin as [[k v] [Hk Hin]].
  apply filter_In in Hin as [_ Hne]. cbn [fst] in *. subst k.
  now rewrite String.eqb_refl in Hne.
Qed.

Lemma delete_keeps_absent (key other : string) (props : list (string * Val)) :
  ~ In key (map fst props) -> ~ In key (map fst (delete other props)).
Proof.
  unfold delete. intros Hnot Hin. apply Hnot.
  apply in_map_iff in Hin as [kv [Hk Hin]].
  apply filter_In in Hin as [Hin _].
  apply in_map_iff. now exists kv.
Qed.

Lemma mapi_from_succ {A} (l : list A) :
  forall i, mapi_from i (fun i _ => placeholder (i + 1)) l
            = placeholders (i + 1) (List.length l).
Proof.
  unfold placeholders.
  induction l as [|x l IH]; intros i; cbn [mapi_from List.length seq map].
  - reflexivity.
  - rewrite IH. reflexivity.
Qed.

(** X20. With a truthy [expiresIn], a [keysAndValuesWithExpiresIn] wrapper
    discards what the payload holds under [expiresIn], [expiresAt] and
    [expiresAtEpoch]: the columns it writes are the other keys of the
    payload, in order, then [expiresAt] and [expiresAtEpoch]; the
    placeholders are numbered from 1; the other keys bind their values in
    order and the last two values bound are [expiresIn], twice. *)
Theorem expiresIn_replaces_expiry_columns (payload : Val) (vals : list Val) :
  truthy (assoc "expiresIn" (own_entries payload)) = true ->
  let kept := without_expiry (own_entries payload) in
  let width := List.length kept in
  render (Escape EscapeKeysAndValuesWithExpiresIn payload) vals
  = Ok ("(" ++
        join ", " (map escapeIdentifier_str (map fst kept) +++
                   [escapeIdentifier_str "expiresAt";
                    escapeIdentifier_str "expiresAtEpoch"]) ++
        ") VALUES (" ++
        join ", " (placeholders 1 width +++
                   ["now() + " ++ placeholder (width + 1) ++ "::interval SECOND";
                    "FLOOR(EXTRACT(EPOCH FROM NOW())) + " ++
                    placeholder (width + 2)]) ++
        ")",
        vals +++
        map (fun key => assoc key kept) (map fst kept) +++
        [assoc "expiresIn" (own_entries payload);
         assoc "expiresIn" (own_entries payload)]) /\
  ~ In "expiresIn" (map fst kept) /\
  ~ In "expiresAt" (map fst kept) /\
  ~ In "expiresAtEpoch" (map fst kept).
Proof.
  intros Htruthy kept width. split; [|split; [|split]].
  - unfold render. rewrite Htruthy. rewrite Htruthy.
    fold (without_expiry (own_entries payload)). fold kept.
    unfold mapi. rewrite (mapi_from_succ (map fst kept) 0).
    rewrite length_map. fold width.
    unfold push. rewrite <- !app_assoc. reflexivity.
  - unfold kept, without_expiry.
    do 2 apply delete_keeps_absent. apply delete_removes.
  - unfold kept, without_expiry.
    apply delete_keeps_absent. apply delete_removes.
  - unfold kept, without_expiry. apply delete_removes.
Qed.

Lemma expiresIn_replaces_expiry_columns_witness :
  render (Escape EscapeKeysAndValuesWithExpiresIn
            (Obj [("id", Num 1); ("expiresAt", Str "never");
                  ("expiresIn", Num 60)]))
         [Str "bound"]
  = Ok ("(" ++ dquote ++ "id" ++ dquote ++ ", " ++ dquote ++ "expiresAt" ++
        dquote ++ ", " ++ dquote ++ "expiresAtEpoch" ++ dquote ++
        ") VALUES ($1, now() + $2::interval SECOND, " ++
        "FLOOR(EXTRACT(EPOCH FROM NOW())) + $3)",
        [Str "bound"; Num 1; Num 60; Num 60]) /\
  ~ In "expiresIn" ["id"] /\
  ~ In "expiresAt" ["id"] /\
  ~ In "expiresAtEpoch" ["id"].
Proof.
  apply (@expiresIn_replaces_expiry_columns
           (Obj [("id", Num 1); ("expiresAt", Str "never");
                 ("expiresIn", Num 60)])
           [Str "bound"]).
  reflexivity.
Defined.

End AssemblerMore.

(** * Further properties of the classifier *)

Module ClassifierMore.

Import Regex Classifier Notions MoreNotions ClassifierFacts.

Lemma strip_prefix_app (p : string) :
  forall s, strip_prefix p (p ++ s) = Some s.
Proof.
  induction p as [|a p IH]; intros s; cbn [strip_prefix append].
  - reflexivity.
  - now rewrite Ascii.eqb_refl.
Qed.

(** A pattern that is one anchored literal matches that text only. *)
Lemma exec_whole_literal (l s : string) :
  (exists caps, exec (whole [Lit l]) s = Some caps) <-> s = l.
Proof.
  unfold exec, whole. cbn [anchored_start anchored_end pieces match_pieces].
  split.
  - intros [caps H].
    destruct (strip_prefix l s) as [r|] eqn:Hr; [|discriminate].
    apply strip_prefix_Some in Hr. destruct r; [|discriminate].
    now rewrite AssemblerFacts.append_empty_r in Hr.
  - intros Heq. rewrite Heq.
    pose proof (strip_prefix_app l EmptyString) as Hl.
    rewrite AssemblerFacts.append_empty_r in Hl. rewrite Hl.
    eexists. reflexivity.
Qed.

Lemma exec_whole_literal_None (l s : string) :
  exec (whole [Lit l]) s = None -> s <> l.
Proof.
  intros H Heq. apply exec_whole_literal in Heq as [caps Hc]. congruence.
Qed.

(** Takes a result apart along the chain of rules. *)
Ltac split_rules H :=
  repeat match type of H with
         | (match ?x with _ => _ end) = _ => destruct x
         | bind ?x _ = _ => destruct x; cbn [bind] in H
         end.

Lemma flags_of_results (e : DatabaseErrorInput) (r : Results) :
  generateDbErrorMessage e = Ok r ->
  (isTimeoutError r = true <-> message e = "Query read timeout") /\
  (isTooManyConnectionsError r = true <->
   message e = "sorry, too many clients already") /\
  isTimeoutError r && isTooManyConnectionsError r = false.
Proof.
  unfold generateDbErrorMessage.
  destruct (exec tooManyClientsRegex (message e)) as [caps1|] eqn:H1.
  - assert (Hm : message e = "sorry, too many clients already")
      by (apply exec_whole_literal; eauto).
    intros H; injection H as <-. cbn. rewrite Hm.
    repeat split; intros; try reflexivity; discriminate.
  - apply exec_whole_literal_None in H1.
    destruct (exec queryTimeoutRegex (message e)) as [caps2|] eqn:H2.
    + assert (Hm : message e = "Query read timeout")
        by (apply exec_whole_literal; eauto).
      intros H; injection H as <-. cbn. rewrite Hm.
      repeat split; intros; try reflexivity; discriminate.
    + apply exec_whole_literal_None in H2.
      intros H. split_rules H; try discriminate H;
        injection H as <-; cbn;
        (repeat split; intros; try reflexivity; try discriminate;
         contradiction).
Qed.

(** X6. Whenever the classifier returns, [isTimeoutError] is set exactly for
    the message [Query read timeout] and [isTooManyConnectionsError] exactly
    for the message [sorry, too many clients already]; no other field of the
    error plays a part, and the two flags are never set together. *)
Theorem flags_follow_the_message (e : DatabaseErrorInput) (r : Results) :
  generateDbErrorMessage e = Ok r ->
  (isTimeoutError r = true <-> message e = "Query read timeout") /\
  (isTooManyConnectionsError r = true <->
   message e = "sorry, too many clients already") /\
  isTimeoutError r && isTooManyConnectionsError r = false.
Proof.
  apply flags_of_results.
Qed.

Lemma flags_follow_the_message_witness :
  (isTimeoutError
     {| res_message := "Query timed out. Running query: SELECT 1";
        isTimeoutError := true; isTooManyConnectionsError := false |} = true
   <-> message timeout_input = "Query read timeout") /\
  (isTooManyConnectionsError
     {| res_message := "Query timed out. Running query: SELECT 1";
        isTimeoutError := true; isTooManyConnectionsError := false |} = true
   <-> message timeout_input = "sorry, too many clients already") /\
  isTimeoutError
    {| res_message := "Query timed out. Running query: SELECT 1";
       isTimeoutError := true; isTooManyConnectionsError := false |} &&
  isTooManyConnectionsError
    {| res_message := "Query timed out. Running query: SELECT 1";
       isTimeoutError := true; isTooManyConnectionsError := false |} = false.
Proof.
  apply (@flags_follow_the_message timeout_input).
  reflexivity.
Defined.

Lemma matches_first_char (p : Pattern) (s : string) (a : ascii) :
  anchored_start p = true ->
  pattern_first_char p = Some a ->
  matches p s = true ->
  first_char s = Some a.
Proof.
  unfold matches, exec, pattern_first_char. intros -> Hp.
  destruct (pieces p) as [|[l| |] rest]; try discriminate.
  destruct l as [|b l]; [discriminate|]. injection Hp as ->.
  cbn [match_pieces strip_prefix].
  destruct s as [|c s]; [discriminate|].
  destruct (Ascii.eqb a c) eqn:Hac; [|discriminate].
  apply Ascii.eqb_eq in Hac. now subst.
Qed.

(** X7. No message matches two of the nine patterns: each pattern fixes the
    first character of the message and the nine first characters differ,
    so the order in which the rules are tried never decides the result. *)
Theorem rules_are_mutually_exclusive (s : string) :
  List.length (filter (fun p => matches p s) rule_patterns) <= 1.
Proof.
  unfold rule_patterns. cbn [filter].
  destruct (matches tooManyClientsRegex s) eqn:E1;
  destruct (matches queryTimeoutRegex s) eqn:E2;
  destruct (matches deleteFkRegex s) eqn:E3;
  destruct (matches insertFkRegex s) eqn:E4;
  destruct (matches duplicateKeyRegex s) eqn:E5;
  destruct (matches tooLongRegex s) eqn:E6;
  destruct (matches missingRelationRegex s) eqn:E7;
  destruct (matches nullValuesRegex s) eqn:E8;
  destruct (matches undefinedValuesRegex s) eqn:E9;
  cbn [List.length]; try lia; exfalso;
  repeat match goal with
         | H : matches _ s = true |- _ =>
             eapply matches_first_char in H; [|reflexivity|reflexivity]
         | H : matches _ s = false |- _ => clear H
         end;
  congruence.
Qed.

(** ** Names captured between double quotes *)

Lemma match_pieces_lazy (at_end : bool) (rest : list Piece) (capture : bool)
    (caps : list string) (s : string) :
  match_pieces at_end (LazyAny capture :: rest) s caps
  = lazy_run at_end rest capture caps EmptyString s.
Proof.
  reflexivity.
Qed.

Lemma plain_chars_cons (c : ascii) (s : string) :
  plain_chars (String c s) = true ->
  Ascii.eqb dq c = false /\ line_terminator c = false /\ plain_chars s = true.
Proof.
  cbn [plain_chars]. intros H.
  apply andb_true_iff in H as [H Hs]. apply andb_true_iff in H as [Hq Hl].
  repeat split; [|now apply negb_true_iff in Hl|exact Hs].
  destruct (Ascii.eqb dq c) eqn:Heq; [|reflexivity].
  apply Ascii.eqb_eq in Heq. subst c. discriminate Hq.
Qed.

(** A lazy run in front of a double quote stops at the first double quote
    after a plain name, if the rest of the pattern matches from there. *)
Lemma lazy_run_plain (at_end : bool) (l : string) (rest : list Piece)
    (capture : bool) (caps : list string) (s' : string) (r : list string) :
  forall (w taken : string),
    plain_name w = true ->
    match_pieces at_end (Lit (String dq l) :: rest) (String dq s')
      (if capture then push caps (taken ++ w) else caps) = Some r ->
    lazy_run at_end (Lit (String dq l) :: rest) capture caps taken
      (w ++ String dq s') = Some r.
Proof.
  induction w as [|c w IH]; intros taken Hw Hrest.
  - discriminate Hw.
  - unfold plain_name in Hw. apply andb_true_iff in Hw as [_ Hw].
    apply plain_chars_cons in Hw as (Hq & Hl & Hw).
    cbn [append lazy_run]. rewrite Hl.
    destruct w as [|c' w].
    + cbn [append]. unfold snoc. rewrite Hrest. reflexivity.
    + assert (Hfail :
        match_pieces at_end (Lit (String dq l) :: rest)
          (String c' w ++ String dq s')
          (if capture then push caps (snoc taken c) else caps) = None).
      { apply plain_chars_cons in Hw as (Hq' & _ & _).
        cbn [append match_pieces strip_prefix]. now rewrite Hq'. }
      rewrite Hfail. apply IH.
      * unfold plain_name. now rewrite Hw.
      * now rewrite snoc_append.
Qed.

Lemma match_lazy_plain (at_end : bool) (l : string) (rest : list Piece)
    (capture : bool) (caps : list string) (w s' : string) (r : list string) :
  plain_name w = true ->
  match_pieces at_end (Lit (String dq l) :: rest) (String dq s')
    (if capture then push caps w else caps) = Some r ->
  match_pieces at_end (LazyAny capture :: Lit (String dq l) :: rest)
    (w ++ String dq s') caps = Some r.
Proof.
  intros Hw Hrest. rewrite match_pieces_lazy.
  now apply lazy_run_plain.
Qed.

(** A lazy run that ends the pattern takes the whole rest of the text. *)
Lemma lazy_run_to_end (caps : list string) :
  forall (w taken : string),
    w <> EmptyString ->
    any_char line_terminator w = false ->
    lazy_run true [] true caps taken w = Some (push caps (taken ++ w)).
Proof.
  induction w as [|c w IH]; intros taken Hne Hlt; [congruence|].
  cbn [any_char] in Hlt. apply orb_false_iff in Hlt as [Hc Hw].
  cbn [lazy_run]. rewrite Hc. destruct w as [|c' w].
  - reflexivity.
  - cbn [match_pieces]. rewrite IH by (try exact Hw; discriminate).
    now rewrite snoc_append.
Qed.

Lemma exec_whole (ps : list Piece) (s : string) :
  exec (whole ps) s = match_pieces true ps s [].
Proof.
  reflexivity.
Qed.

Lemma match_lit (at_end : bool) (l : string) (rest : list Piece) (s : string)
    (caps : list string) :
  match_pieces at_end (Lit l :: rest) (l ++ s) caps
  = match_pieces at_end rest s caps.
Proof.
  cbn [match_pieces]. now rewrite strip_prefix_app.
Qed.

(** X8. For a missing-relation message whose relation name is plain (not
    empty, no double quote, no line terminator) the classifier reports
    exactly that name, with the method read from the query text; the
    detail, the table and the parameters of the error play no part. *)
Theorem missing_relation_is_named (e : DatabaseErrorInput) (relation : string) :
  plain_name relation = true ->
  message e = "relation " ++ dquote ++ relation ++ dquote ++ " does not exist" ->
  generateDbErrorMessage e
  = Ok {| res_message :=
            "Could not perform " ++ show (getQueryMethod (or_empty (query e))) ++
            " operation on missing table " ++ dquote ++ relation ++ dquote ++ ".";
          isTimeoutError := false;
          isTooManyConnectionsError := false |}.
Proof.
  intros Hname Hm.
  assert (Hexec : exec missingRelationRegex (message e) = Some [relation]).
  { rewrite Hm. unfold missingRelationRegex. rewrite exec_whole.
    rewrite <- (AssemblerFacts.append_assoc "relation " dquote).
    rewrite match_lit.
    apply (@match_lazy_plain true " does not exist" [] true [] relation
             " does not exist" [relation] Hname).
    reflexivity. }
  unfold generateDbErrorMessage. rewrite Hexec. rewrite Hm. reflexivity.
Qed.

Lemma missing_relation_is_named_witness :
  generateDbErrorMessage
    {| message := "relation " ++ dquote ++ "users" ++ dquote ++ " does not exist";
       detail := None; table := None; query := Some "SELECT * FROM users";
       parameters := None; args := None |}
  = Ok {| res_message :=
            "Could not perform " ++
            show (getQueryMethod (or_empty (Some "SELECT * FROM users"))) ++
            " operation on missing table " ++ dquote ++ "users" ++ dquote ++ ".";
          isTimeoutError := false;
          isTooManyConnectionsError := false |}.
Proof.
  apply (@missing_relation_is_named
           {| message := "relation " ++ dquote ++ "users" ++ dquote ++
                         " does not exist";
              detail := None; table := None;
              query := Some "SELECT * FROM users";
              parameters := None; args := None |} "users").
  - reflexivity.
  - reflexivity.
Defined.

(** X9. For a not-null violation on a plain column name the classifier
    reports that column, the table of the error's own [table] field (empty
    when absent) and the method read from the query text. *)
Theorem null_value_names_column (e : DatabaseErrorInput) (column : string) :
  plain_name column = true ->
  message e = "null value in column " ++ dquote ++ column ++ dquote ++
              " violates not-null constraint" ->
  generateDbErrorMessage e
  = Ok {| res_message :=
            "Could not " ++ show (getQueryMethod (or_empty (query e))) ++
            " item in " ++ dquote ++ or_empty (table e) ++ dquote ++
            " table. Unexpected null value for " ++ dquote ++ column ++
            dquote ++ " column.";
          isTimeoutError := false;
          isTooManyConnectionsError := false |}.
Proof.
  intros Hname Hm.
  assert (Hexec : exec nullValuesRegex (message e) = Some [column]).
  { rewrite Hm. unfold nullValuesRegex. rewrite exec_whole.
    rewrite <- (AssemblerFacts.append_assoc "null value in column " dquote).
    rewrite match_lit.
    apply (@match_lazy_plain true " violates not-null constraint" [] true []
             column " violates not-null constraint" [column] Hname).
    reflexivity. }
  unfold generateDbErrorMessage. rewrite Hexec. rewrite Hm. reflexivity.
Qed.

Lemma null_value_names_column_witness :
  generateDbErrorMessage
    {| message := "null value in column " ++ dquote ++ "email" ++ dquote ++
                  " violates not-null constraint";
       detail := None; table := Some "users";
       query := Some "INSERT INTO users (id) VALUES ($1)";
       parameters := Some [Num 1]; args := None |}
  = Ok {| res_message :=
            "Could not " ++
            show (getQueryMethod
                    (or_empty (Some "INSERT INTO users (id) VALUES ($1)"))) ++
            " item in " ++ dquote ++ or_empty (Some "users") ++ dquote ++
            " table. Unexpected null value for " ++ dquote ++ "email" ++
            dquote ++ " column.";
          isTimeoutError := false;
          isTooManyConnectionsError := false |}.
Proof.
  apply (@null_value_names_column
           {| message := "null value in column " ++ dquote ++ "email" ++ dquote ++
                         " violates not-null constraint";
              detail := None; table := Some "users";
              query := Some "INSERT INTO users (id) VALUES ($1)";
              parameters := Some [Num 1]; args := None |} "email").
  - reflexivity.
  - reflexivity.
Defined.

(** X10. For a duplicate-key message on a plain constraint name, with
    [parameters] present, the classifier names the first parameter (as JSON
    when it is an object, an array or null; [undefined] when there is
    none), the table of the error's [table] field and the method read from
    the query text; it throws exactly when [JSON.stringify] rejects the
    first parameter. *)
Theorem duplicate_key_names_first_parameter (e : DatabaseErrorInput)
    (constraint : string) (ps : list Val) :
  plain_name constraint = true ->
  message e = "duplicate key value violates unique constraint " ++ dquote ++
              constraint ++ dquote ->
  parameters e = Some ps ->
  generateDbErrorMessage e
  = (item <- item_text (nth 0 ps Undefined) ;;
     Ok {| res_message :=
             "Could not " ++ show (getQueryMethod (or_empty (query e))) ++
             " item " ++ dquote ++ item ++ dquote ++
             " into " ++ dquote ++ or_empty (table e) ++ dquote ++
             " table. Detail: " ++ show (detail e);
           isTimeoutError := false;
           isTooManyConnectionsError := false |}).
Proof.
  intros Hname Hm Hps.
  assert (Hexec : exec duplicateKeyRegex (message e) = Some [constraint]).
  { rewrite Hm. unfold duplicateKeyRegex. rewrite exec_whole.
    rewrite <- (AssemblerFacts.append_assoc
                  "duplicate key value violates unique constraint " dquote).
    rewrite match_lit.
    apply (@match_lazy_plain true EmptyString [] true [] constraint
             EmptyString [constraint] Hname).
    reflexivity. }
  unfold generateDbErrorMessage. rewrite Hexec, Hps. rewrite Hm. reflexivity.
Qed.

Lemma duplicate_key_names_first_parameter_witness :
  generateDbErrorMessage
    {| message := duplicateKey_message; detail := Some "Key exists.";
       table := Some "users"; query := Some "INSERT INTO users ...";
       parameters := Some [Arr [Str "a@b.com"; Num 1e21]]; args := None |}
  = (item <- item_text (nth 0 [Arr [Str "a@b.com"; Num 1e21]] Undefined) ;;
     Ok {| res_message :=
             "Could not " ++
             show (getQueryMethod (or_empty (Some "INSERT INTO users ..."))) ++
             " item " ++ dquote ++ item ++ dquote ++
             " into " ++ dquote ++ or_empty (Some "users") ++ dquote ++
             " table. Detail: " ++ show (Some "Key exists.");
           isTimeoutError := false;
           isTooManyConnectionsError := false |}).
Proof.
  apply (@duplicate_key_names_first_parameter
           {| message := duplicateKey_message; detail := Some "Key exists.";
              table := Some "users"; query := Some "INSERT INTO users ...";
              parameters := Some [Arr [Str "a@b.com"; Num 1e21]];
              args := None |}
           "users_email_key" [Arr [Str "a@b.com"; Num 1e21]]).
  - reflexivity.
  - reflexivity.
  - reflexivity.
Defined.

(** X11. For a delete foreign-key message on plain names the classifier
    reports the first table of the message, the one being updated or
    deleted from, and neither the constraint nor the referencing table. *)
Theorem delete_fk_names_touched_table (e : DatabaseErrorInput)
    (touched constraint referencing : string) :
  plain_name touched = true ->
  plain_name constraint = true ->
  plain_name referencing = true ->
  message e = "update or delete on table " ++ dquote ++ touched ++ dquote ++
              " violates foreign key constraint " ++ dquote ++ constraint ++
              dquote ++ " on table " ++ dquote ++ referencing ++ dquote ->
  generateDbErrorMessage e
  = Ok {| res_message :=
            "Could not " ++ show (getQueryMethod (or_empty (query e))) ++
            " item from " ++ dquote ++ touched ++ dquote ++
            " table. Detail: " ++ show (detail e);
          isTimeoutError := false;
          isTooManyConnectionsError := false |}.
Proof.
  intros Ht Hc Hr Hm.
  assert (Hexec :
    exec deleteFkRegex (message e) = Some [touched; referencing]).
  { rewrite Hm. unfold deleteFkRegex. rewrite exec_whole.
    rewrite <- (AssemblerFacts.append_assoc "update or delete on table " dquote).
    rewrite match_lit.
    apply (@match_lazy_plain true
             (" violates foreign key constraint " ++ dquote) _ true []
             touched _ [touched; referencing] Ht).
    change (String dq
              (" violates foreign key constraint " ++ dquote ++ constraint ++
               dquote ++ " on table " ++ dquote ++ referencing ++ dquote))
      with ((dquote ++ " violates foreign key constraint " ++ dquote) ++
            constraint ++ dquote ++ " on table " ++ dquote ++ referencing ++
            dquote).
    change (Lit (String dq (" violates foreign key constraint " ++ dquote)))
      with (Lit (dquote ++ " violates foreign key constraint " ++ dquote)).
    rewrite match_lit.
    apply (@match_lazy_plain true (" on table " ++ dquote) _ false
             (push [] touched) constraint _ [touched; referencing] Hc).
    change (String dq (" on table " ++ dquote ++ referencing ++ dquote))
      with ((dquote ++ " on table " ++ dquote) ++ referencing ++ dquote).
    change (Lit (String dq (" on table " ++ dquote)))
      with (Lit (dquote ++ " on table " ++ dquote)).
    rewrite match_lit.
    apply (@match_lazy_plain true EmptyString [] true (push [] touched)
             referencing EmptyString [touched; referencing] Hr).
    reflexivity. }
  unfold generateDbErrorMessage. rewrite Hexec. rewrite Hm. reflexivity.
Qed.

Lemma delete_fk_names_touched_table_witness :
  generateDbErrorMessage
    {| message := "update or delete on table " ++ dquote ++ "authors" ++ dquote ++
                  " violates foreign key constraint " ++ dquote ++
                  "books_authorId_fkey" ++ dquote ++ " on table " ++ dquote ++
                  "books" ++ dquote;
       detail := Some "Key is still referenced."; table := Some "books";
       query := Some "DELETE FROM authors WHERE id = $1";
       parameters := Some [Num 1]; args := None |}
  = Ok {| res_message :=
            "Could not " ++
            show (getQueryMethod
                    (or_empty (Some "DELETE FROM authors WHERE id = $1"))) ++
            " item from " ++ dquote ++ "authors" ++ dquote ++
            " table. Detail: " ++ show (Some "Key is still referenced.");
          isTimeoutError := false;
          isTooManyConnectionsError := false |}.
Proof.
  apply (@delete_fk_names_touched_table
           {| message := "update or delete on table " ++ dquote ++ "authors" ++
                         dquote ++ " violates foreign key constraint " ++ dquote ++
                         "books_authorId_fkey" ++ dquote ++ " on table " ++
                         dquote ++ "books" ++ dquote;
              detail := Some "Key is still referenced."; table := Some "books";
              query := Some "DELETE FROM authors WHERE id = $1";
              parameters := Some [Num 1]; args := None |}
           "authors" "books_authorId_fkey" "books").
  - reflexivity.
  - reflexivity.
  - reflexivity.
  - reflexivity.
Defined.



Lemma search_here (at_end : bool) (ps : list Piece) (s : string)
    (r : list string) :
  match_pieces at_end ps s [] = Some r -> search at_end ps s = Some r.
Proof.
  intros H. destruct s; cbn [search]; now rewrite H.
Qed.

Lemma match_choice_verb (rest : list Piece) (verb s' : string)
    (r : list string) :
  verb = "UPDATE" \/ verb = "INSERT" ->
  match_pieces false rest s' (push [] verb) = Some r ->
  match_pieces false (Choice ["UPDATE"; "INSERT"] :: rest) (verb ++ s') []
  = Some r.
Proof.
  intros [-> | ->] H; cbn [match_pieces].
  - change (strip_prefix "UPDATE" ("UPDATE" ++ s')) with (Some s').
    cbv iota beta. now rewrite H.
  - change (strip_prefix "UPDATE" ("INSERT" ++ s')) with (@None string).
    change (strip_prefix "INSERT" ("INSERT" ++ s')) with (Some s').
    cbv iota beta. now rewrite H.
Qed.

(** X12. For a value-too-long message, when the query text starts with
    UPDATE or INSERT, goes on with a text that is not empty and holds no
    double quote or line terminator, and then holds a plain name between
    double quotes, the classifier reports that verb and, as the table, that
    name, whatever it designates; the type is the rest of the message. *)
Theorem too_long_reads_first_quoted_name (e : DatabaseErrorInput)
    (dataType verb gap name tail : string) :
  dataType <> EmptyString ->
  any_char line_terminator dataType = false ->
  verb = "UPDATE" \/ verb = "INSERT" ->
  plain_name gap = true ->
  plain_name name = true ->
  message e = "value too long for type " ++ dataType ->
  query e = Some (verb ++ gap ++ dquote ++ name ++ dquote ++ tail) ->
  generateDbErrorMessage e
  = Ok {| res_message :=
            "Could not " ++ verb ++ " item into " ++ dquote ++ name ++ dquote ++
            " table. A value is too long for db type " ++ dquote ++ dataType ++
            dquote ++ ".";
          isTimeoutError := false;
          isTooManyConnectionsError := false |}.
Proof.
  intros Hne Hlt Hverb Hgap Hname Hm Hq.
  assert (Hlong : exec tooLongRegex (message e) = Some [dataType]).
  { rewrite Hm. unfold tooLongRegex. rewrite exec_whole, match_lit.
    rewrite match_pieces_lazy. now rewrite lazy_run_to_end. }
  assert (Hanalyze :
    exec analyzeQueryRegex
      (verb ++ gap ++ dquote ++ name ++ dquote ++ tail) = Some [verb; name]).
  { unfold exec, analyzeQueryRegex. cbn [anchored_start anchored_end pieces].
    apply search_here. apply match_choice_verb; [exact Hverb|].
    apply (@match_lazy_plain false EmptyString _ false (push [] verb) gap _
             [verb; name] Hgap).
    change (String dq (name ++ dquote ++ tail))
      with (dquote ++ name ++ dquote ++ tail).
    change (Lit (String dq EmptyString)) with (Lit dquote).
    rewrite match_lit.
    apply (@match_lazy_plain false EmptyString [] true (push [] verb) name
             tail [verb; name] Hname).
    reflexivity. }
  unfold generateDbErrorMessage. rewrite Hlong, Hq. cbn [or_empty].
  rewrite Hanalyze. rewrite Hm. reflexivity.
Qed.

Lemma too_long_reads_first_quoted_name_witness :
  generateDbErrorMessage
    {| message := "value too long for type " ++ "character varying(5)";
       detail := None; table := Some "users";
       query := Some ("INSERT" ++ " INTO users (" ++ dquote ++ "name" ++ dquote ++
                      ") VALUES ($1)");
       parameters := Some [Str "a long name"]; args := None |}
  = Ok {| res_message :=
            "Could not " ++ "INSERT" ++ " item into " ++ dquote ++ "name" ++
            dquote ++ " table. A value is too long for db type " ++ dquote ++
            "character varying(5)" ++ dquote ++ ".";
          isTimeoutError := false;
          isTooManyConnectionsError := false |}.
Proof.
  apply (@too_long_reads_first_quoted_name
           {| message := "value too long for type " ++ "character varying(5)";
              detail := None; table := Some "users";
              query := Some ("INSERT" ++ " INTO users (" ++ dquote ++ "name" ++
                             dquote ++ ") VALUES ($1)");
              parameters := Some [Str "a long name"]; args := None |}
           "character varying(5)" "INSERT" " INTO users (" "name"
           ") VALUES ($1)").
  - discriminate.
  - reflexivity.
  - right. reflexivity.
  - reflexivity.
  - reflexivity.
  - reflexivity.
  - reflexivity.
Defined.

Lemma any_char_append (p : ascii -> bool) (a b : string) :
  any_char p (a ++ b) = any_char p a || any_char p b.
Proof.
  induction a as [|c a IH]; cbn [append any_char]; [reflexivity|].
  now rewrite IH, orb_assoc.
Qed.

Lemma strip_newlines_no_LF (s : string) :
  any_char (Ascii.eqb LF) (strip_newlines s) = false.
Proof.
  induction s as [|c s IH]; cbn [strip_newlines any_char]; [reflexivity|].
  destruct (Nat.eqb (nat_of_ascii c) 10) eqn:Hc; [exact IH|].
  cbn [any_char]. rewrite IH, orb_false_r.
  destruct (Ascii.eqb LF c) eqn:Heq; [|reflexivity].
  apply Ascii.eqb_eq in Heq. subst c. discriminate Hc.
Qed.

(** X13. For the two retryable messages the classifier echoes, after a
    fixed sentence, the query text with every line feed removed (nothing
    when the error has no query text), so the message it returns is a
    single line. *)
Theorem retryable_message_is_one_line (e : DatabaseErrorInput) :
  (message e = "Query read timeout" ->
   generateDbErrorMessage e
   = Ok {| res_message :=
             "Query timed out. Running query: " ++
             strip_newlines (or_empty (query e));
           isTimeoutError := true;
           isTooManyConnectionsError := false |} /\
   any_char (Ascii.eqb LF)
     ("Query timed out. Running query: " ++
      strip_newlines (or_empty (query e))) = false) /\
  (message e = "sorry, too many clients already" ->
   generateDbErrorMessage e
   = Ok {| res_message :=
             "Too many database connections, try again later. Running query: " ++
             strip_newlines (or_empty (query e));
           isTimeoutError := false;
           isTooManyConnectionsError := true |} /\
   any_char (Ascii.eqb LF)
     ("Too many database connections, try again later. Running query: " ++
      strip_newlines (or_empty (query e))) = false).
Proof.
  split; intros Hm; (split;
    [unfold generateDbErrorMessage; rewrite Hm; reflexivity
    |rewrite any_char_append, strip_newlines_no_LF; reflexivity]).
Qed.

Lemma retryable_message_is_one_line_witness :
  generateDbErrorMessage
    {| message := "Query read timeout"; detail := None; table := None;
       query := Some (String LF ("  SELECT 1" ++ String LF "  FROM t"));
       parameters := None; args := None |}
  = Ok {| res_message :=
            "Query timed out. Running query: " ++
            strip_newlines
              (or_empty (Some (String LF ("  SELECT 1" ++ String LF "  FROM t"))));
          isTimeoutError := true;
          isTooManyConnectionsError := false |} /\
  any_char (Ascii.eqb LF)
    ("Query timed out. Running query: " ++
     strip_newlines
       (or_empty (Some (String LF ("  SELECT 1" ++ String LF "  FROM t")))))
  = false.
Proof.
  destruct (retryable_message_is_one_line
              {| message := "Query read timeout"; detail := None; table := None;
                 query := Some (String LF ("  SELECT 1" ++ String LF "  FROM t"));
                 parameters := None; args := None |}) as [H _].
  apply H. reflexivity.
Defined.

End ClassifierMore.

(** * Further properties of the error wrapper and of the failure path *)

Module ErrorsMore.

Import Assembler Classifier Errors Client Notions MoreNotions.

(** X14. The status code of a [DBError] built from an error object is 429
    exactly when the message is [Query read timeout], or the error is a
    pg [DatabaseError] whose message is [sorry, too many clients already];
    it is 400 in every other case, that message on another kind of error
    included. *)
Theorem status_429_exactly_when_retryable (isDatabaseError : bool)
    (e : DatabaseErrorInput) (d : DBError) :
  new_DBError (OfError isDatabaseError e) = Ok d ->
  (statusCode d = 429 <->
   message e = "Query read timeout" \/
   (isDatabaseError = true /\ message e = "sorry, too many clients already")) /\
  (statusCode d = 429 \/ statusCode d = 400).
Proof.
  unfold new_DBError.
  destruct (is_classified isDatabaseError e) eqn:Hcls.
  - destruct (generateDbErrorMessage e) as [r|err] eqn:Hgen; cbn [bind];
      [|discriminate].
    intros H. injection H as <-. cbn [statusCode].
    destruct (ClassifierMore.flags_of_results _ Hgen) as (Ht & Hc & _).
    destruct (isTimeoutError r) eqn:Et; cbn [orb].
    + split; [|left; reflexivity].
      split; [intros _; left; now apply Ht | reflexivity].
    + destruct (isTooManyConnectionsError r) eqn:Ec.
      * split; [|left; reflexivity].
        split; [|reflexivity]. intros _. right.
        assert (Hm : message e = "sorry, too many clients already")
          by now apply Hc.
        split; [|exact Hm].
        unfold is_classified in Hcls. rewrite Hm in Hcls.
        destruct isDatabaseError; [reflexivity | discriminate Hcls].
      * split; [|right; reflexivity].
        split; [discriminate|].
        intros [Hm | [_ Hm]]; [apply Ht in Hm | apply Hc in Hm]; discriminate.
  - intros H. injection H as <-. cbn [statusCode].
    split; [|right; reflexivity].
    split; [discriminate|].
    unfold is_classified in Hcls.
    intros [Hm | [Hdb Hm]].
    + rewrite Hm in Hcls. destruct isDatabaseError; discriminate Hcls.
    + rewrite Hdb in Hcls. discriminate Hcls.
Qed.

Lemma status_429_exactly_when_retryable_witness :
  (statusCode {| db_message := "sorry, too many clients already";
                 statusCode := 400 |} = 429 <->
   message {| message := "sorry, too many clients already"; detail := None;
              table := None; query := Some "SELECT 1"; parameters := None;
              args := None |} = "Query read timeout" \/
   (false = true /\
    message {| message := "sorry, too many clients already"; detail := None;
               table := None; query := Some "SELECT 1"; parameters := None;
               args := None |} = "sorry, too many clients already")) /\
  (statusCode {| db_message := "sorry, too many clients already";
                 statusCode := 400 |} = 429 \/
   statusCode {| db_message := "sorry, too many clients already";
                 statusCode := 400 |} = 400).
Proof.
  apply (@status_429_exactly_when_retryable false
           {| message := "sorry, too many clients already"; detail := None;
              table := None; query := Some "SELECT 1"; parameters := None;
              args := None |}).
  reflexivity.
Defined.



(** X22. An error that carries the SDK's undefined-value message is
    classified whether or not it is a pg [DatabaseError]: the new
    [DBError] lists the [args] of the error as JSON ([undefined] when it
    has none) and keeps the status code 400; the constructor throws
    exactly when [JSON.stringify] rejects the [args]. *)
Theorem undefined_value_error_lists_args (isDatabaseError : bool)
    (e : DatabaseErrorInput) :
  message e = "UNDEFINED_VALUE: Undefined values are not allowed" ->
  new_DBError (OfError isDatabaseError e)
  = (json <- args_json e ;;
     Ok {| db_message :=
             "Unexpected undefined value applying data to database. Args: " ++
             show json ++ ".";
           statusCode := 400 |}).
Proof.
  intros Hm. unfold new_DBError, is_classified, generateDbErrorMessage.
  rewrite Hm. unfold args_json.
  destruct isDatabaseError;
    (destruct (match args e with
               | Some a => JSON_stringify a
               | None => Ok None
               end); reflexivity).
Qed.

Lemma undefined_value_error_lists_args_witness :
  new_DBError
    (OfError false
       {| message := "UNDEFINED_VALUE: Undefined values are not allowed";
          detail := None; table := None; query := Some "SELECT 1";
          parameters := None; args := Some (Arr [Num 1e21; Undefined]) |})
  = (json <- args_json
               {| message := "UNDEFINED_VALUE: Undefined values are not allowed";
                  detail := None; table := None; query := Some "SELECT 1";
                  parameters := None;
                  args := Some (Arr [Num 1e21; Undefined]) |} ;;
     Ok {| db_message :=
             "Unexpected undefined value applying data to database. Args: " ++
             show json ++ ".";
           statusCode := 400 |}).
Proof.
  apply (@undefined_value_error_lists_args false
           {| message := "UNDEFINED_VALUE: Undefined values are not allowed";
              detail := None; table := None; query := Some "SELECT 1";
              parameters := None; args := Some (Arr [Num 1e21; Undefined]) |}).
  reflexivity.
Defined.

End ErrorsMore.

(** * Properties of [examineFilterKeys] *)

Module FilterKeysFacts.

Import FilterKeys MoreNotions.

Lemma examine_loop_spec (filterKeys : Val) (keys : list string) :
  forall (areEmptyString areAllUndefined : bool),
    examine_loop filterKeys keys areEmptyString areAllUndefined
    = match find (is_defined_at filterKeys) keys with
      | Some key =>
          (if is_empty_string (get_own filterKeys key) then true
           else areEmptyString, false)
      | None => (areEmptyString, areAllUndefined)
      end.
Proof.
  induction keys as [|key rest IH]; intros es au; cbn [examine_loop find].
  - reflexivity.
  - unfold is_defined_at at 1.
    destruct (get_own filterKeys key) eqn:Hv; cbn [is_undefined negb];
      try (rewrite Hv; reflexivity).
    cbn [is_empty_string]. apply IH.
Qed.

Lemma falsy_has_no_keys (filterKeys : Val) :
  truthy filterKeys = false -> own_keys filterKeys = [].
Proof.
  destruct filterKeys as [| |b|n|s|items|props|z]; cbn [truthy]; intros H;
    try reflexivity; try discriminate H.
  destruct s; [reflexivity | discriminate H].
Qed.

Lemma all_undefined_field (filterKeys : Val) :
  areAllFilterKeysUndefined (examineFilterKeys filterKeys)
  = match find (is_defined_at filterKeys) (own_keys filterKeys) with
    | Some _ => false
    | None => true
    end.
Proof.
  unfold examineFilterKeys. rewrite examine_loop_spec.
  destruct (find _ _); reflexivity.
Qed.

Lemma empty_string_field (filterKeys : Val) :
  areEmptyStringFilterKeys (examineFilterKeys filterKeys)
  = match find (is_defined_at filterKeys) (own_keys filterKeys) with
    | Some key => is_empty_string (get_own filterKeys key)
    | None => false
    end.
Proof.
  unfold examineFilterKeys. rewrite examine_loop_spec.
  destruct (find _ _) as [key|]; cbn [areEmptyStringFilterKeys];
    [|reflexivity].
  destruct (is_empty_string _); reflexivity.
Qed.

Lemma falsy_field (filterKeys : Val) :
  areFilterKeysFalsy (examineFilterKeys filterKeys) = negb (truthy filterKeys).
Proof.
  unfold examineFilterKeys. rewrite examine_loop_spec.
  destruct (find _ _); cbn [areFilterKeysFalsy];
    destruct (truthy filterKeys); reflexivity.
Qed.

Lemma empty_field (filterKeys : Val) :
  areFilterKeysEmpty (examineFilterKeys filterKeys)
  = truthy filterKeys && Nat.eqb (List.length (own_keys filterKeys)) 0.
Proof.
  unfold examineFilterKeys. rewrite examine_loop_spec.
  destruct (find _ _); cbn [areFilterKeysEmpty];
    destruct (truthy filterKeys); cbn [negb andb];
    try reflexivity;
    destruct (Nat.eqb (List.length (own_keys filterKeys)) 0); reflexivity.
Qed.

Lemma find_defined_forallb (filterKeys : Val) (keys : list string) :
  match find (is_defined_at filterKeys) keys with
  | Some _ => false
  | None => true
  end
  = forallb (fun key => is_undefined (get_own filterKeys key)) keys.
Proof.
  induction keys as [|key rest IH]; cbn [find forallb]; [reflexivity|].
  unfold is_defined_at at 1.
  destruct (is_undefined (get_own filterKeys key)); cbn [negb andb];
    [exact IH | reflexivity].
Qed.

(** X16. [areAllFilterKeysUndefined] is true exactly when no key the
    loop visits has a defined value: also when it visits no key at all, as
    for every falsy argument. *)
Theorem all_undefined_means_no_defined_value (filterKeys : Val) :
  areAllFilterKeysUndefined (examineFilterKeys filterKeys)
  = forallb (fun key => is_undefined (get_own filterKeys key))
            (own_keys filterKeys) /\
  (areFilterKeysFalsy (examineFilterKeys filterKeys) = true ->
   areAllFilterKeysUndefined (examineFilterKeys filterKeys) = true).
Proof.
  rewrite all_undefined_field, find_defined_forallb, falsy_field.
  split; [reflexivity|].
  intros H. apply negb_true_iff in H.
  now rewrite (falsy_has_no_keys _ H).
Qed.

Lemma all_undefined_means_no_defined_value_witness :
  areAllFilterKeysUndefined (examineFilterKeys (Num 0)) = true.
Proof.
  destruct (all_undefined_means_no_defined_value (Num 0)) as [_ H].
  apply H. reflexivity.
Defined.

(** X17. [areEmptyStringFilterKeys] only looks at the first defined value,
    in key order: it is true exactly when that value is the empty string,
    and an empty string behind another defined value goes unnoticed. *)
Theorem empty_string_only_seen_first (filterKeys : Val) :
  areEmptyStringFilterKeys (examineFilterKeys filterKeys)
  = match find (is_defined_at filterKeys) (own_keys filterKeys) with
    | Some key => is_empty_string (get_own filterKeys key)
    | None => false
    end /\
  (forall (first : string) (v : Val) (others : list (string * Val)),
      v <> Undefined -> v <> Str EmptyString ->
      areEmptyStringFilterKeys (examineFilterKeys (Obj ((first, v) :: others)))
      = false).
Proof.
  split; [apply empty_string_field|].
  intros first v others Hu He. rewrite empty_string_field.
  cbn [own_keys own_entries map fst find].
  unfold is_defined_at at 1. cbn [get_own own_entries assoc].
  rewrite String.eqb_refl.
  destruct v as [| |b|n|s|items|props|z]; try congruence;
    cbn [is_undefined negb get_own own_entries assoc];
    rewrite String.eqb_refl; cbn [is_empty_string]; try reflexivity.
  destruct s; [congruence | reflexivity].
Qed.

(** X18. The flags are consistent: a falsy argument is never reported
    empty nor holding an empty string, and an argument reported to hold an
    empty string is neither falsy nor all undefined. *)
Theorem filter_key_flags_are_consistent (filterKeys : Val) :
  areFilterKeysFalsy (examineFilterKeys filterKeys) &&
  areFilterKeysEmpty (examineFilterKeys filterKeys) = false /\
  (areFilterKeysFalsy (examineFilterKeys filterKeys) = true ->
   areEmptyStringFilterKeys (examineFilterKeys filterKeys) = false) /\
  (areEmptyStringFilterKeys (examineFilterKeys filterKeys) = true ->
   areFilterKeysFalsy (examineFilterKeys filterKeys) = false /\
   areAllFilterKeysUndefined (examineFilterKeys filterKeys) = false).
Proof.
  rewrite all_undefined_field, empty_string_field, falsy_field, empty_field.
  destruct (truthy filterKeys) eqn:Ht; cbn [negb andb].
  - split; [reflexivity|]. split; [discriminate|].
    destruct (find _ _) as [key|] eqn:Hfind; [|discriminate].
    intros _. split; reflexivity.
  - rewrite (falsy_has_no_keys _ Ht). cbn [find].
    split; [reflexivity|]. split; [reflexivity | discriminate].
Qed.

Lemma filter_key_flags_are_consistent_witness :
  areFilterKeysFalsy
    (examineFilterKeys (Obj [("id", Undefined); ("name", Str EmptyString)]))
  = false /\
  areAllFilterKeysUndefined
    (examineFilterKeys (Obj [("id", Undefined); ("name", Str EmptyString)]))
  = false.
Proof.
  destruct (filter_key_flags_are_consistent
              (Obj [("id", Undefined); ("name", Str EmptyString)]))
    as (_ & _ & H).
  apply H. reflexivity.
Defined.

Lemma empty_string_only_seen_first_witness :
  areEmptyStringFilterKeys
    (examineFilterKeys (Obj [("id", Num 1); ("name", Str EmptyString)]))
  = false.
Proof.
  destruct (empty_string_only_seen_first Undefined) as [_ H].
  apply (H "id" (Num 1) [("name", Str EmptyString)]); discriminate.
Defined.

End FilterKeysFacts.
